(** * Planted recommendation engine: the inference-serving cache core

    A shallow embedding of [ml-engine/inference/realtime_inference.py]
    (CacheManager, DatabaseManager, ModelInferenceEngine and the
    precompute task) and of the slice of
    [ml-engine/models/hybrid_recommender.py] that the serving path calls
    (PlantedFeatureEncoder and HybridRecommender.predict_compatibility).

    Conventions of the embedding
    - Python floats are exact rationals ([Qc]); NaN, infinities and
      rounding are outside the model, and [json.dumps]/[json.loads] and
      [str]/[float] round trips are the identity on the values stored.
    - A Redis key space is a finite map from key strings to entries
      carrying their absolute expiry time; a key is visible while the
      clock is strictly before that time (Redis semantics of SETEX).
    - Every effect goes through one state-and-exception monad [M] over
      [World]; a Python [try/except Exception] is [try_except].
    - [asyncio.gather] is evaluated in list order: gather returns its
      results positionally, whatever the completion order of the tasks.
    - The world records a trace of the calls that cross the boundary to
      the Profile Store, the Scoring Function and of the successful
      cache writes; counting claims are stated on that trace. *)

From Stdlib Require Import ZArith QArith Qcanon Ascii String List Lia.
From Stdlib Require Import Sorting.Sorted Sorting.Permutation.
From stdpp Require Import base gmap strings list numbers.

Open Scope string_scope.
Open Scope list_scope.
Open Scope Z_scope.

(** ** Numbers *)

(** The literal [0.5] of the source. *)
Definition neutral_score : Qc := Q2Qc (1 # 2).

Definition Qc_ltb (x y : Qc) : bool := bool_decide (x < y)%Qc.

(** [np.clip(x, lo, hi)] on a scalar. *)
Definition np_clip (x lo hi : Qc) : Qc :=
  if Qc_ltb x lo then lo else if Qc_ltb hi x then hi else x.

(** ** Python list helpers *)

(** [l[:k]] for an arbitrary integer [k]: a negative stop counts from
    the end of the list. *)
Definition py_slice_to {A} (k : Z) (l : list A) : list A :=
  if decide (0 <= k) then take (Z.to_nat k) l
  else take (length l - Z.to_nat (- k))%nat l.

(** [sorted(l)] on strings: stable, ascending, with the code-point order
    of [str.__lt__]. *)
Fixpoint sorted_insert (x : string) (l : list string) : list string :=
  match l with
  | [] => [x]
  | y :: l' => if String.ltb y x then y :: sorted_insert x l' else x :: l
  end.

Definition py_sorted (l : list string) : list string :=
  foldr sorted_insert [] l.

(** [sep.join(l)] *)
Definition py_join (sep : string) (l : list string) : string :=
  String.concat sep l.

(** ** Data model *)

(** A profile row: the [user_id] column and the numeric columns, the
    latter as the dictionary the encoder reads with [dict.get]. *)
Record UserProfile := mkUserProfile {
  user_id : string;
  attributes : gmap string Qc
}.

(** One element of a recommendation list:
    [{'user_id', 'compatibility_score', 'timestamp'}]. *)
Record Recommendation := mkRecommendation {
  rec_user_id : string;
  compatibility_score : Qc;
  timestamp : Z
}.

(** [InferenceConfig]: the fields the serving core reads. *)
Record InferenceConfig := mkInferenceConfig {
  cache_ttl : Z;
  max_candidates : Z
}.

(** The dataclass constructor with its defaults; it has no
    [__post_init__] and performs no validation. *)
Definition InferenceConfig_init (cache_ttl_arg max_candidates_arg : option Z)
  : InferenceConfig :=
  {| cache_ttl := default 3600 cache_ttl_arg;
     max_candidates := default 1000 max_candidates_arg |}.

(** The three expiry times the CacheManager passes to SETEX. *)
Definition profile_ttl (config : InferenceConfig) : Z := cache_ttl config.
Definition compat_ttl (config : InferenceConfig) : Z := cache_ttl config * 2.
Definition list_ttl (config : InferenceConfig) : Z := cache_ttl config * 6.

(** ** The world: Redis, the database, the clock, the engine counters *)

(** What a Redis key holds, by the shape the writer serialised. *)
Inductive redis_value :=
| RProfile (p : UserProfile)
| RMatches (l : list Recommendation)
| RScore (q : Qc).

Record entry := mkEntry {
  value : redis_value;
  expires : Z
}.

(** Calls that leave the engine, in the order they happen (newest
    first). [RedisSetex] is recorded for a write Redis accepted. *)
Inductive event :=
| DbGetUserProfile (uid : string)
| DbGetActiveUsers (limit : Z)
| ModelPredict (user1_data user2_data : gmap string Qc)
| RedisSetex (key : string) (ttl : Z) (v : redis_value).

Record World := mkWorld {
  redis_data : gmap string entry;
  redis_up : bool;
  db_up : bool;
  user_profiles : gmap string (gmap string Qc);
  active_users : list string;
  clock : Z;
  cache_hits : nat;
  request_count : nat;
  trace : list event
}.

Definition set_redis_data (f : gmap string entry → gmap string entry)
    (w : World) : World :=
  mkWorld (f (redis_data w)) (redis_up w) (db_up w) (user_profiles w)
          (active_users w) (clock w) (cache_hits w) (request_count w) (trace w).

Definition set_clock (t : Z) (w : World) : World :=
  mkWorld (redis_data w) (redis_up w) (db_up w) (user_profiles w)
          (active_users w) t (cache_hits w) (request_count w) (trace w).

Definition incr_cache_hits (w : World) : World :=
  mkWorld (redis_data w) (redis_up w) (db_up w) (user_profiles w)
          (active_users w) (clock w) (S (cache_hits w)) (request_count w)
          (trace w).

Definition incr_request_count (w : World) : World :=
  mkWorld (redis_data w) (redis_up w) (db_up w) (user_profiles w)
          (active_users w) (clock w) (cache_hits w) (S (request_count w))
          (trace w).

Definition emit (e : event) (w : World) : World :=
  mkWorld (redis_data w) (redis_up w) (db_up w) (user_profiles w)
          (active_users w) (clock w) (cache_hits w) (request_count w)
          (e :: trace w).

(** ** The state-and-exception monad *)

Inductive exn := ConnectionError | ResponseError | ValueError.

Inductive result (A : Type) :=
| Ok (a : A)
| Raise (e : exn).
Arguments Ok {A} a.
Arguments Raise {A} e.

Definition M (A : Type) : Type := World → result A * World.

Definition ret {A} (a : A) : M A := λ w, (Ok a, w).

Definition bind {A B} (m : M A) (k : A → M B) : M B := λ w,
  match m w with
  | (Ok a, w') => k a w'
  | (Raise e, w') => (Raise e, w')
  end.

Definition raise {A} (e : exn) : M A := λ w, (Raise e, w).

(** [try: body  except Exception as e: handler e]; the effects of the
    body up to the exception stay in place. *)
Definition try_except {A} (body : M A) (handler : exn → M A) : M A := λ w,
  match body w with
  | (Ok a, w') => (Ok a, w')
  | (Raise e, w') => handler e w'
  end.

Definition modify (f : World → World) : M unit := λ w, (Ok tt, f w).
Definition gets {A} (f : World → A) : M A := λ w, (Ok (f w), w).

Declare Scope py_scope.
Delimit Scope py_scope with py.
Notation "x <- m ;; k" := (bind m (λ x, k))
  (at level 100, m at next level, right associativity) : py_scope.
Notation "m ;;; k" := (bind m (λ _, k))
  (at level 100, right associativity) : py_scope.
Open Scope py_scope.

(** [[await f(x) for x in l]] collected in list order. *)
Fixpoint gather {A B} (f : A → M B) (l : list A) : M (list B) :=
  match l with
  | [] => ret []
  | x :: l' => y <- f x ;; ys <- gather f l' ;; ret (y :: ys)
  end.

(** ** Redis *)

(** What GET finds under a key: an entry past its expiry is gone. *)
Definition live_value (w : World) (key : string) : option redis_value :=
  match redis_data w !! key with
  | Some e => if decide (clock w < expires e) then Some (value e) else None
  | None => None
  end.

Definition redis_get (key : string) : M (option redis_value) := λ w,
  if redis_up w then (Ok (live_value w key), w)
  else (Raise ConnectionError, w).

(** SETEX key ttl value: Redis refuses a non-positive expiry with
    "invalid expire time". *)
Definition redis_setex (key : string) (ttl : Z) (v : redis_value) : M unit :=
  λ w,
  if redis_up w then
    if decide (0 < ttl) then
      (Ok tt, emit (RedisSetex key ttl v)
                (set_redis_data <[key := mkEntry v (clock w + ttl)]> w))
    else (Raise ResponseError, w)
  else (Raise ConnectionError, w).

(** ** CacheManager *)

Module CacheManager.
Section WithConfig.
Variable config : InferenceConfig.

Definition user_profile_key (uid : string) : string := "user_profile:" +:+ uid.
Definition matches_key (uid : string) : string := "matches:" +:+ uid.

(** [f"compat:{':'.join(sorted([user1_id, user2_id]))}"] *)
Definition compat_key (user1_id user2_id : string) : string :=
  "compat:" +:+ py_join ":" (py_sorted [user1_id; user2_id]).

(** A value of another shape under the key makes the decoding step
    raise; like every other exception it is logged and turned into
    [None]. *)
Definition get_user_profile (uid : string) : M (option UserProfile) :=
  try_except
    (profile_data <- redis_get (user_profile_key uid) ;;
     match profile_data with
     | Some (RProfile p) => ret (Some p)
     | Some _ => raise ValueError
     | None => ret None
     end)
    (λ _, ret None).

Definition set_user_profile (uid : string) (profile : UserProfile) : M unit :=
  try_except
    (redis_setex (user_profile_key uid) (cache_ttl config) (RProfile profile))
    (λ _, ret tt).

Definition get_precomputed_matches (uid : string)
  : M (option (list Recommendation)) :=
  try_except
    (matches_data <- redis_get (matches_key uid) ;;
     match matches_data with
     | Some (RMatches l) => ret (Some l)
     | Some _ => raise ValueError
     | None => ret None
     end)
    (λ _, ret None).

Definition set_precomputed_matches (uid : string)
    (matches : list Recommendation) : M unit :=
  try_except
    (redis_setex (matches_key uid) (cache_ttl config * 6) (RMatches matches))
    (λ _, ret tt).

Definition get_compatibility_score (user1_id user2_id : string)
  : M (option Qc) :=
  try_except
    (let key := compat_key user1_id user2_id in
     score <- redis_get key ;;
     match score with
     | Some (RScore q) => ret (Some q)
     | Some _ => raise ValueError
     | None => ret None
     end)
    (λ _, ret None).

Definition set_compatibility_score (user1_id user2_id : string) (score : Qc)
  : M unit :=
  try_except
    (let key := compat_key user1_id user2_id in
     redis_setex key (cache_ttl config * 2) (RScore score))
    (λ _, ret tt).
End WithConfig.
End CacheManager.

(** ** DatabaseManager *)

Module DatabaseManager.
(** [SELECT ... FROM user_profiles WHERE user_id = %s]; no pool or a
    failing query gives [None]. *)
Definition select_user_profile (w : World) (uid : string)
  : option UserProfile :=
  if db_up w then mkUserProfile uid <$> user_profiles w !! uid else None.

Definition get_user_profile (uid : string) : M (option UserProfile) :=
  modify (emit (DbGetUserProfile uid)) ;;;
  w <- gets id ;;
  ret (select_user_profile w uid).

(** [... ORDER BY last_active DESC LIMIT %s]: [active_users] is the
    roster in that order; a negative limit is a query error, caught
    like the others. *)
Definition select_active_users (w : World) (limit : Z) : list string :=
  if db_up w && bool_decide (0 <= limit)
  then take (Z.to_nat limit) (active_users w)
  else [].

Definition get_active_users (limit : Z) : M (list string) :=
  modify (emit (DbGetActiveUsers limit)) ;;;
  w <- gets id ;;
  ret (select_active_users w limit).
End DatabaseManager.

(** ** PlantedFeatureEncoder *)

Module PlantedFeatureEncoder.
(** [user_data.get(k, 0.5)] *)
Definition get (user_data : gmap string Qc) (k : string) : Qc :=
  default neutral_score (user_data !! k).

Definition encode_dietary_journey (user_data : gmap string Qc) : list Qc :=
  [ get user_data "motivation_score";
    get user_data "strictness_level";
    get user_data "journey_stage";
    get user_data "social_comfort" ].

Definition encode_values_alignment (user_data : gmap string Qc) : list Qc :=
  [ get user_data "animal_rights_score";
    get user_data "environmental_score";
    get user_data "health_motivation";
    get user_data "spiritual_connection";
    get user_data "activism_level" ].

Definition encode_lifestyle_compatibility (user_data : gmap string Qc)
  : list Qc :=
  [ get user_data "cooking_skill_level";
    get user_data "sustainability_practices";
    get user_data "community_involvement" ].

Definition encode_behavioral_features (user_data : gmap string Qc)
  : list Qc :=
  [ get user_data "swipe_selectivity";
    get user_data "message_quality_score";
    get user_data "response_time_pattern";
    get user_data "engagement_depth";
    get user_data "profile_completion";
    get user_data "activity_frequency" ].

Definition encode_user_features (user_data : gmap string Qc) : list Qc :=
  (encode_dietary_journey user_data ++ encode_values_alignment user_data
   ++ encode_lifestyle_compatibility user_data
   ++ encode_behavioral_features user_data)%list.

(** The columns of the profile schema, in encoding order. *)
Definition schema : list string :=
  [ "motivation_score"; "strictness_level"; "journey_stage";
    "social_comfort"; "animal_rights_score"; "environmental_score";
    "health_motivation"; "spiritual_connection"; "activism_level";
    "cooking_skill_level"; "sustainability_practices";
    "community_involvement"; "swipe_selectivity"; "message_quality_score";
    "response_time_pattern"; "engagement_depth"; "profile_completion";
    "activity_frequency" ].
End PlantedFeatureEncoder.

(** ** HybridRecommender *)

Module HybridRecommender.
(** The learned parts are opaque: the regressor behind
    [CompatibilityScorer.predict] ([None] when it raises, as it does
    before training), the optional deep network, the ensemble weights
    read from the model file, and the cosine term of
    [_compute_collaborative_score], whose norms are not rational. *)
Record t := mk {
  compatibility_scorer_predict : list Qc → option Qc;
  deep_network : option (list Qc → list Qc → Qc);
  weights_compatibility : Qc;
  weights_deep_network : Qc;
  weights_collaborative : Qc;
  cosine_score : list Qc → list Qc → Qc
}.

Definition _compute_collaborative_score (self : t)
    (user1_data user2_data : gmap string Qc) : Qc :=
  let user1_features := PlantedFeatureEncoder.encode_user_features user1_data in
  let user2_features := PlantedFeatureEncoder.encode_user_features user2_data in
  cosine_score self user1_features user2_features.

Definition predict_compatibility (self : t)
    (user1_data user2_data : gmap string Qc) : result Qc :=
  let user1_features := PlantedFeatureEncoder.encode_user_features user1_data in
  let user2_features := PlantedFeatureEncoder.encode_user_features user2_data in
  let combined_features := (user1_features ++ user2_features)%list in
  match compatibility_scorer_predict self combined_features with
  | None => Raise ValueError
  | Some compat_score =>
      let deep_score :=
        match deep_network self with
        | Some net => net user1_features user2_features
        | None => neutral_score
        end in
      let collab_score :=
        _compute_collaborative_score self user1_data user2_data in
      let final_score :=
        (weights_compatibility self * compat_score
         + weights_deep_network self * deep_score
         + weights_collaborative self * collab_score)%Qc in
      Ok (np_clip final_score (Q2Qc 0) (Q2Qc 1))
  end.
End HybridRecommender.

(** ** Ranking helpers of [get_recommendations] *)

(** [recommendations.sort(key=lambda x: x['compatibility_score'],
    reverse=True)]: a stable sort, so records with equal scores keep
    their relative order. *)
Fixpoint insert_by_score (x : Recommendation) (l : list Recommendation)
  : list Recommendation :=
  match l with
  | [] => [x]
  | y :: l' =>
      if Qc_ltb (compatibility_score x) (compatibility_score y)
      then y :: insert_by_score x l'
      else x :: l
  end.

Definition sort_by_score_reverse (l : list Recommendation)
  : list Recommendation :=
  foldr insert_by_score [] l.

(** Python truthiness of an optional list: [None] and [[]] are falsy. *)
Definition truthy {A} (l : option (list A)) : bool :=
  match l with
  | Some (_ :: _) => true
  | _ => false
  end.

(** ** ModelInferenceEngine *)

Module ModelInferenceEngine.
Section WithEngine.
Variable config : InferenceConfig.
Variable model : HybridRecommender.t.

Definition get_user_profile (uid : string) : M (option UserProfile) :=
  profile <- CacheManager.get_user_profile uid ;;
  match profile with
  | Some p => modify incr_cache_hits ;;; ret (Some p)
  | None =>
      profile <- DatabaseManager.get_user_profile uid ;;
      match profile with
      | Some p => CacheManager.set_user_profile config uid p ;;; ret (Some p)
      | None => ret None
      end
  end.

(** The call into the model, recorded on the trace. *)
Definition model_predict_compatibility
    (user1_data user2_data : gmap string Qc) : M Qc :=
  modify (emit (ModelPredict user1_data user2_data)) ;;;
  match HybridRecommender.predict_compatibility model user1_data user2_data with
  | Ok score => ret score
  | Raise e => raise e
  end.

Definition predict_compatibility (user1_id user2_id : string) : M Qc :=
  cached_score <- CacheManager.get_compatibility_score user1_id user2_id ;;
  match cached_score with
  | Some score => modify incr_cache_hits ;;; ret score
  | None =>
      user1_profile <- get_user_profile user1_id ;;
      user2_profile <- get_user_profile user2_id ;;
      match user1_profile, user2_profile with
      | Some p1, Some p2 =>
          try_except
            (let user1_data := attributes p1 in
             let user2_data := attributes p2 in
             score <- model_predict_compatibility user1_data user2_data ;;
             CacheManager.set_compatibility_score config user1_id user2_id score ;;;
             ret score)
            (λ _, ret neutral_score)
      | _, _ => ret neutral_score
      end
  end.

(** Lines 404-415: zip the candidates with their scores, sort, and the
    whole sorted list is kept for the cache write. *)
Definition rank (now : Z) (candidate_ids : list string) (scores : list Qc)
  : list Recommendation :=
  sort_by_score_reverse
    (zip_with (λ cid score, mkRecommendation cid score now)
              candidate_ids scores).

Definition get_recommendations (uid : string)
    (candidate_ids : option (list string)) (top_k : Z)
  : M (list Recommendation) :=
  cached_matches <- CacheManager.get_precomputed_matches uid ;;
  if truthy cached_matches && negb (truthy candidate_ids) then
    modify incr_cache_hits ;;;
    ret (py_slice_to top_k (default [] cached_matches))
  else
    user_profile <- get_user_profile uid ;;
    match user_profile with
    | None => ret []
    | Some _ =>
        candidate_ids <-
          (if negb (truthy candidate_ids) then
             roster <- DatabaseManager.get_active_users (max_candidates config) ;;
             ret (filter (λ cid, cid ≠ uid) roster)
           else ret (default [] candidate_ids)) ;;
        compatibility_scores <- gather (predict_compatibility uid) candidate_ids ;;
        now <- gets clock ;;
        let recommendations := rank now candidate_ids compatibility_scores in
        let top_recommendations := py_slice_to top_k recommendations in
        (if negb (truthy (Some candidate_ids)) then
           CacheManager.set_precomputed_matches config uid
             (py_slice_to 50 recommendations)
         else ret tt) ;;;
        modify incr_request_count ;;;
        ret top_recommendations
    end.

(** [_precompute_user_matches]: the background task behind
    [/precompute/{user_id}]. *)
Definition _precompute_user_matches (uid : string) : M unit :=
  try_except
    (recommendations <- get_recommendations uid None 50 ;;
     ret tt)
    (λ _, ret tt).
End WithEngine.
End ModelInferenceEngine.

(** * Verification *)

(** ** Pure views of a world

    What each read would return, and what each cache write does, as
    functions of the world; the monadic operations are then rewritten
    into them. *)

Import CacheManager.

Definition cached_profile (w : World) (uid : string) : option UserProfile :=
  if redis_up w then
    match live_value w (user_profile_key uid) with
    | Some (RProfile p) => Some p
    | _ => None
    end
  else None.

Definition cached_score (w : World) (user1_id user2_id : string) : option Qc :=
  if redis_up w then
    match live_value w (compat_key user1_id user2_id) with
    | Some (RScore q) => Some q
    | _ => None
    end
  else None.

Definition cached_matches (w : World) (uid : string)
  : option (list Recommendation) :=
  if redis_up w then
    match live_value w (matches_key uid) with
    | Some (RMatches l) => Some l
    | _ => None
    end
  else None.

(** The effect of a SETEX wrapped in its [try/except]. *)
Definition cache_write (key : string) (ttl : Z) (v : redis_value) (w : World)
  : World :=
  if redis_up w && bool_decide (0 < ttl)
  then emit (RedisSetex key ttl v)
         (set_redis_data <[key := mkEntry v (clock w + ttl)]> w)
  else w.

(** The answer of the Profile Resolver in a world. *)
Definition resolve (w : World) (uid : string) : option UserProfile :=
  match cached_profile w uid with
  | Some p => Some p
  | None => DatabaseManager.select_user_profile w uid
  end.

(** Counting on a trace. *)
Definition is_store_read (e : event) : bool :=
  match e with DbGetUserProfile _ => true | _ => false end.
Definition is_model_call (e : event) : bool :=
  match e with ModelPredict _ _ => true | _ => false end.
Definition store_reads (t : list event) : nat := length (filter is_store_read t).
Definition model_calls (t : list event) : nat := length (filter is_model_call t).

Ltac unfold_monad :=
  unfold bind, ret, raise, try_except, modify, gets, redis_get, redis_setex.

Section CacheManagerFacts.
Variable config : InferenceConfig.

Lemma get_user_profile_eq uid w :
  CacheManager.get_user_profile uid w = (Ok (cached_profile w uid), w).
Proof.
  unfold CacheManager.get_user_profile, cached_profile. unfold_monad.
  destruct (redis_up w); [|done].
  by destruct (live_value w _) as [[]|].
Qed.

Lemma get_compatibility_score_eq a b w :
  get_compatibility_score a b w = (Ok (cached_score w a b), w).
Proof.
  unfold get_compatibility_score, cached_score. unfold_monad.
  destruct (redis_up w); [|done].
  by destruct (live_value w _) as [[]|].
Qed.

Lemma get_precomputed_matches_eq uid w :
  get_precomputed_matches uid w = (Ok (cached_matches w uid), w).
Proof.
  unfold get_precomputed_matches, cached_matches. unfold_monad.
  destruct (redis_up w); [|done].
  by destruct (live_value w _) as [[]|].
Qed.

Lemma set_user_profile_eq uid p w :
  set_user_profile config uid p w =
  (Ok tt, cache_write (user_profile_key uid) (profile_ttl config) (RProfile p) w).
Proof.
  unfold set_user_profile, cache_write, profile_ttl. unfold_monad.
  destruct (redis_up w); [|done]. simpl.
  by case_decide; [rewrite bool_decide_eq_true_2|rewrite bool_decide_eq_false_2].
Qed.

Lemma set_compatibility_score_eq a b q w :
  set_compatibility_score config a b q w =
  (Ok tt, cache_write (compat_key a b) (compat_ttl config) (RScore q) w).
Proof.
  unfold set_compatibility_score, cache_write, compat_ttl. unfold_monad.
  destruct (redis_up w); [|done]. simpl.
  by case_decide; [rewrite bool_decide_eq_true_2|rewrite bool_decide_eq_false_2].
Qed.

Lemma set_precomputed_matches_eq uid l w :
  set_precomputed_matches config uid l w =
  (Ok tt, cache_write (matches_key uid) (list_ttl config) (RMatches l) w).
Proof.
  unfold set_precomputed_matches, cache_write, list_ttl. unfold_monad.
  destruct (redis_up w); [|done]. simpl.
  by case_decide; [rewrite bool_decide_eq_true_2|rewrite bool_decide_eq_false_2].
Qed.
End CacheManagerFacts.

Lemma db_get_active_users_eq limit w :
  DatabaseManager.get_active_users limit w =
  (Ok (DatabaseManager.select_active_users w limit), emit (DbGetActiveUsers limit) w).
Proof. reflexivity. Qed.

Lemma db_get_user_profile_eq uid w :
  DatabaseManager.get_user_profile uid w =
  (Ok (DatabaseManager.select_user_profile w uid), emit (DbGetUserProfile uid) w).
Proof. reflexivity. Qed.

(** ** Frame facts: what the world transformers leave alone *)

(** The parts of the world no operation of the engine changes. *)
Definition same_env (w w' : World) : Prop :=
  redis_up w' = redis_up w ∧ db_up w' = db_up w
  ∧ user_profiles w' = user_profiles w ∧ active_users w' = active_users w
  ∧ clock w' = clock w.

Lemma same_env_refl w : same_env w w.
Proof. by repeat split. Qed.

Lemma same_env_trans w1 w2 w3 : same_env w1 w2 → same_env w2 w3 → same_env w1 w3.
Proof. unfold same_env. intros (?&?&?&?&?) (?&?&?&?&?). repeat split; congruence. Qed.

Lemma same_env_emit e w : same_env w (emit e w).
Proof. by repeat split. Qed.

Lemma same_env_incr_cache_hits w : same_env w (incr_cache_hits w).
Proof. by repeat split. Qed.

Lemma same_env_incr_request_count w : same_env w (incr_request_count w).
Proof. by repeat split. Qed.

Lemma same_env_cache_write k ttl v w : same_env w (cache_write k ttl v w).
Proof. unfold cache_write. by destruct (_ && _); repeat split. Qed.

Lemma live_value_same w w' k :
  clock w' = clock w → redis_data w' !! k = redis_data w !! k →
  live_value w' k = live_value w k.
Proof. unfold live_value. by intros -> ->. Qed.

Lemma live_value_cache_write_ne k k' ttl v w :
  k ≠ k' → live_value (cache_write k ttl v w) k' = live_value w k'.
Proof.
  intros Hne. unfold cache_write. destruct (_ && _); [|done].
  unfold live_value. simpl. by rewrite lookup_insert_ne.
Qed.

Lemma redis_data_cache_write_ne k k' ttl v w :
  k ≠ k' → redis_data (cache_write k ttl v w) !! k' = redis_data w !! k'.
Proof.
  intros Hne. unfold cache_write. destruct (_ && _); [|done].
  simpl. by rewrite lookup_insert_ne.
Qed.

(** A write that Redis accepts is visible for the whole of its TTL. *)
Lemma live_value_cache_write_eq k ttl v w :
  redis_up w = true → 0 < ttl →
  live_value (cache_write k ttl v w) k = Some v.
Proof.
  intros Hup Httl. unfold cache_write. rewrite Hup, bool_decide_eq_true_2 by done.
  unfold live_value. simpl. rewrite lookup_insert_eq. simpl.
  rewrite decide_True; [done | lia].
Qed.

Lemma trace_cache_write k ttl v w :
  trace (cache_write k ttl v w) =
  (if redis_up w && bool_decide (0 < ttl) then [RedisSetex k ttl v] else [])
  ++ trace w.
Proof. unfold cache_write. by destruct (_ && _). Qed.

(** The three families of keys never meet. *)
Lemma user_profile_key_inj a b : user_profile_key a = user_profile_key b → a = b.
Proof. apply String.app_inj. Qed.

Lemma matches_key_inj a b : matches_key a = matches_key b → a = b.
Proof. apply String.app_inj. Qed.

Lemma compat_key_not_profile a b c : compat_key a b ≠ user_profile_key c.
Proof. unfold compat_key, user_profile_key. cbv [String.append]. congruence. Qed.

Lemma matches_key_not_profile a c : matches_key a ≠ user_profile_key c.
Proof. unfold matches_key, user_profile_key. cbv [String.append]. congruence. Qed.

Lemma compat_key_not_matches a b c : compat_key a b ≠ matches_key c.
Proof. unfold compat_key, matches_key. cbv [String.append]. congruence. Qed.

(** ** The Profile Resolver as a function of the world *)

Section EngineFacts.
Variable config : InferenceConfig.
Variable model : HybridRecommender.t.

Definition after_resolve (uid : string) (w : World) : World :=
  match cached_profile w uid with
  | Some _ => incr_cache_hits w
  | None =>
      match DatabaseManager.select_user_profile w uid with
      | Some p =>
          cache_write (user_profile_key uid) (profile_ttl config) (RProfile p)
            (emit (DbGetUserProfile uid) w)
      | None => emit (DbGetUserProfile uid) w
      end
  end.

Lemma engine_get_user_profile_eq uid w :
  ModelInferenceEngine.get_user_profile config uid w
  = (Ok (resolve w uid), after_resolve uid w).
Proof.
  unfold ModelInferenceEngine.get_user_profile, resolve, after_resolve, bind.
  rewrite get_user_profile_eq.
  destruct (cached_profile w uid); [done|].
  rewrite db_get_user_profile_eq.
  destruct (DatabaseManager.select_user_profile w uid); [|done].
  by rewrite set_user_profile_eq.
Qed.

Lemma same_env_after_resolve uid w : same_env w (after_resolve uid w).
Proof.
  unfold after_resolve.
  destruct (cached_profile w uid); [apply same_env_incr_cache_hits|].
  destruct (DatabaseManager.select_user_profile w uid);
    [|apply same_env_emit].
  eapply same_env_trans; [apply same_env_emit|apply same_env_cache_write].
Qed.

Lemma redis_data_after_resolve uid w k :
  k ≠ user_profile_key uid →
  redis_data (after_resolve uid w) !! k = redis_data w !! k.
Proof.
  intros Hk. unfold after_resolve.
  destruct (cached_profile w uid); [done|].
  destruct (DatabaseManager.select_user_profile w uid); [|done].
  by rewrite redis_data_cache_write_ne.
Qed.

Lemma live_value_after_resolve uid w k :
  k ≠ user_profile_key uid →
  live_value (after_resolve uid w) k = live_value w k.
Proof.
  intros Hk. apply live_value_same.
  - apply same_env_after_resolve.
  - by apply redis_data_after_resolve.
Qed.

Lemma select_user_profile_same w w' uid :
  same_env w w' →
  DatabaseManager.select_user_profile w' uid
  = DatabaseManager.select_user_profile w uid.
Proof.
  intros (_&Hdb&Hrows&_). unfold DatabaseManager.select_user_profile.
  by rewrite Hdb, Hrows.
Qed.

Lemma cached_score_after_resolve uid w a b :
  cached_score (after_resolve uid w) a b = cached_score w a b.
Proof.
  unfold cached_score.
  rewrite live_value_after_resolve by apply compat_key_not_profile.
  by destruct (same_env_after_resolve uid w) as [-> _].
Qed.

Lemma cached_matches_after_resolve uid w a :
  cached_matches (after_resolve uid w) a = cached_matches w a.
Proof.
  unfold cached_matches.
  rewrite live_value_after_resolve by apply matches_key_not_profile.
  by destruct (same_env_after_resolve uid w) as [-> _].
Qed.

(** Resolving one user never changes what any user resolves to. *)
Lemma resolve_after_resolve uid w y :
  resolve (after_resolve uid w) y = resolve w y.
Proof.
  unfold resolve.
  rewrite (select_user_profile_same w) by apply same_env_after_resolve.
  destruct (decide (y = uid)) as [->|Hne].
  - unfold after_resolve.
    destruct (cached_profile w uid) as [p|] eqn:Hc.
    + unfold cached_profile in *. simpl.
      by rewrite (live_value_same w (incr_cache_hits w)), Hc.
    + destruct (DatabaseManager.select_user_profile w uid) as [p|] eqn:Hs.
      * unfold cache_write. simpl.
        destruct (redis_up w) eqn:Hup; simpl.
        -- case_bool_decide as Httl; simpl.
           ++ unfold cached_profile. simpl. rewrite Hup.
              unfold live_value. simpl. rewrite lookup_insert_eq. simpl.
              rewrite decide_True; [done|lia].
           ++ unfold cached_profile in *. simpl. rewrite Hup in *.
              rewrite (live_value_same w (emit _ w)) by done.
              by rewrite Hc.
        -- unfold cached_profile. simpl. by rewrite Hup.
      * unfold cached_profile in *. simpl.
        rewrite (live_value_same w (emit _ w)) by done. by rewrite Hc.
  - unfold cached_profile.
    destruct (same_env_after_resolve uid w) as [-> _].
    rewrite live_value_after_resolve; [done|].
    intros Heq. by apply user_profile_key_inj in Heq.
Qed.

(** The events of one resolution: at most one store read, none if the
    cache answered, and only profile writes. *)
Definition profile_event (e : event) : bool :=
  match e with
  | DbGetUserProfile _ => true
  | RedisSetex _ _ (RProfile _) => true
  | _ => false
  end.

Lemma trace_after_resolve uid w :
  ∃ new, trace (after_resolve uid w) = new ++ trace w
         ∧ forallb profile_event new = true
         ∧ store_reads new
           = match cached_profile w uid with Some _ => 0 | None => 1 end%nat.
Proof.
  unfold after_resolve.
  destruct (cached_profile w uid); [by exists []|].
  destruct (DatabaseManager.select_user_profile w uid);
    [|by exists [DbGetUserProfile uid]].
  rewrite trace_cache_write. simpl.
  destruct (redis_up w && _).
  - by exists [RedisSetex (user_profile_key uid) (profile_ttl config) (RProfile u);
               DbGetUserProfile uid].
  - by exists [DbGetUserProfile uid].
Qed.

(** ** The Pairwise Scorer as a function of the world *)

Definition scored (p1 p2 : UserProfile) : result Qc :=
  HybridRecommender.predict_compatibility model (attributes p1) (attributes p2).

Definition predict_value (a b : string) (w : World) : Qc :=
  match cached_score w a b with
  | Some q => q
  | None =>
      match resolve w a, resolve w b with
      | Some p1, Some p2 =>
          match scored p1 p2 with Ok s => s | Raise _ => neutral_score end
      | _, _ => neutral_score
      end
  end.

Definition after_predict (a b : string) (w : World) : World :=
  match cached_score w a b with
  | Some _ => incr_cache_hits w
  | None =>
      let w2 := after_resolve b (after_resolve a w) in
      match resolve w a, resolve w b with
      | Some p1, Some p2 =>
          let w3 := emit (ModelPredict (attributes p1) (attributes p2)) w2 in
          match scored p1 p2 with
          | Ok s => cache_write (compat_key a b) (compat_ttl config) (RScore s) w3
          | Raise _ => w3
          end
      | _, _ => w2
      end
  end.

Lemma predict_compatibility_eq a b w :
  ModelInferenceEngine.predict_compatibility config model a b w
  = (Ok (predict_value a b w), after_predict a b w).
Proof.
  unfold ModelInferenceEngine.predict_compatibility, predict_value,
    after_predict, bind.
  rewrite get_compatibility_score_eq.
  destruct (cached_score w a b); [done|].
  rewrite !engine_get_user_profile_eq, resolve_after_resolve.
  destruct (resolve w a) as [p1|]; [|by destruct (resolve w b)].
  destruct (resolve w b) as [p2|]; [|done].
  unfold try_except, bind, ModelInferenceEngine.model_predict_compatibility,
    modify, scored.
  destruct (HybridRecommender.predict_compatibility _ _ _); [|done].
  unfold bind, ret. cbv beta iota. by rewrite set_compatibility_score_eq.
Qed.

Lemma same_env_after_predict a b w : same_env w (after_predict a b w).
Proof.
  unfold after_predict.
  destruct (cached_score w a b); [apply same_env_incr_cache_hits|].
  assert (same_env w (after_resolve b (after_resolve a w))) as H2
    by (eapply same_env_trans; apply same_env_after_resolve).
  destruct (resolve w a) as [p1|]; [|done].
  destruct (resolve w b) as [p2|]; [|done].
  destruct (scored p1 p2).
  - eapply same_env_trans; [exact H2|].
    eapply same_env_trans; [apply same_env_emit|apply same_env_cache_write].
  - eapply same_env_trans; [exact H2|apply same_env_emit].
Qed.

(** Scoring a pair touches at most three keys. *)
Lemma redis_data_after_predict a b w k :
  k ≠ user_profile_key a → k ≠ user_profile_key b → k ≠ compat_key a b →
  redis_data (after_predict a b w) !! k = redis_data w !! k.
Proof.
  intros Ha Hb Hk. unfold after_predict.
  destruct (cached_score w a b); [done|].
  assert (redis_data (after_resolve b (after_resolve a w)) !! k
          = redis_data w !! k) as H2
    by (by rewrite !redis_data_after_resolve).
  destruct (resolve w a) as [p1|]; [|done].
  destruct (resolve w b) as [p2|]; [|done].
  destruct (scored p1 p2); [|done].
  by rewrite redis_data_cache_write_ne.
Qed.

(** No score is written unless both profiles resolved. *)
Lemma redis_data_after_predict_unresolved a b w k :
  resolve w a = None ∨ resolve w b = None →
  k ≠ user_profile_key a → k ≠ user_profile_key b →
  redis_data (after_predict a b w) !! k = redis_data w !! k.
Proof.
  intros Hnone Ha Hb. unfold after_predict.
  destruct (cached_score w a b); [done|].
  assert (redis_data (after_resolve b (after_resolve a w)) !! k
          = redis_data w !! k) as H2
    by (by rewrite !redis_data_after_resolve).
  destruct (resolve w a) as [p1|]; [|done].
  destruct (resolve w b) as [p2|]; [|done].
  by destruct Hnone.
Qed.

Lemma resolve_same_profiles w w' y :
  same_env w w' →
  redis_data w' !! user_profile_key y = redis_data w !! user_profile_key y →
  resolve w' y = resolve w y.
Proof.
  intros Henv Hk. unfold resolve, cached_profile.
  rewrite (select_user_profile_same w w') by done.
  rewrite (live_value_same w w') by (done || apply Henv).
  by destruct Henv as [-> _].
Qed.

Lemma resolve_after_predict a b w y :
  resolve (after_predict a b w) y = resolve w y.
Proof.
  unfold after_predict.
  destruct (cached_score w a b); [by apply resolve_same_profiles|].
  assert (resolve (after_resolve b (after_resolve a w)) y = resolve w y) as H2
    by (by rewrite !resolve_after_resolve).
  destruct (resolve w a) as [p1|]; [|done].
  destruct (resolve w b) as [p2|]; [|done].
  rewrite <- H2.
  destruct (scored p1 p2).
  - apply resolve_same_profiles.
    + eapply same_env_trans; [apply same_env_emit|apply same_env_cache_write].
    + rewrite redis_data_cache_write_ne; [done|apply compat_key_not_profile].
  - by apply resolve_same_profiles.
Qed.

Lemma no_profile_event_is_model_call new :
  forallb profile_event new = true → model_calls new = 0%nat.
Proof.
  unfold model_calls. induction new as [|e new IH]; [done|].
  simpl. destruct e as [| | |? ? []]; try done; simpl; auto.
Qed.

Lemma profile_event_not_score_write new k ttl q :
  forallb profile_event new = true → ¬ In (RedisSetex k ttl (RScore q)) new.
Proof.
  induction new as [|e new IH]; [by intros _ []|].
  simpl. intros [He Hnew]%andb_true_iff [Heq|Hin]; [by subst e|by apply IH].
Qed.

Lemma profile_event_not_matches_write new k ttl l :
  forallb profile_event new = true → ¬ In (RedisSetex k ttl (RMatches l)) new.
Proof.
  induction new as [|e new IH]; [by intros _ []|].
  simpl. intros [He Hnew]%andb_true_iff [Heq|Hin]; [by subst e|by apply IH].
Qed.

(** The events of one scoring call, newest first. *)
Definition predict_events (a b : string) (w : World) (news : list event)
  : list event :=
  match cached_score w a b with
  | Some _ => []
  | None =>
      match resolve w a, resolve w b with
      | Some p1, Some p2 =>
          match scored p1 p2 with
          | Ok s =>
              (if redis_up w && bool_decide (0 < compat_ttl config)
               then [RedisSetex (compat_key a b) (compat_ttl config) (RScore s)]
               else [])
              ++ ModelPredict (attributes p1) (attributes p2) :: news
          | Raise _ => ModelPredict (attributes p1) (attributes p2) :: news
          end
      | _, _ => news
      end
  end.

Lemma trace_after_predict a b w :
  ∃ news, forallb profile_event news = true
          ∧ trace (after_predict a b w) = predict_events a b w news ++ trace w.
Proof.
  unfold after_predict, predict_events.
  destruct (cached_score w a b); [by exists []|].
  destruct (trace_after_resolve a w) as (n1 & Ht1 & Hp1 & _).
  destruct (trace_after_resolve b (after_resolve a w)) as (n2 & Ht2 & Hp2 & _).
  exists (n2 ++ n1). split.
  { by rewrite forallb_app, Hp1, Hp2. }
  assert (trace (after_resolve b (after_resolve a w)) = (n2 ++ n1) ++ trace w)
    as Ht by (by rewrite Ht2, Ht1, app_assoc).
  assert (redis_up (after_resolve b (after_resolve a w)) = redis_up w) as Hup.
  { eapply (same_env_trans w); apply same_env_after_resolve. }
  destruct (resolve w a) as [p1|]; [|done].
  destruct (resolve w b) as [p2|]; [|done].
  destruct (scored p1 p2); simpl.
  - rewrite trace_cache_write. simpl. rewrite Hup, Ht.
    rewrite <- ?app_assoc. simpl. by rewrite <- ?app_assoc.
  - by rewrite Ht.
Qed.
End EngineFacts.

(** ** The canonical compatibility key *)

Lemma py_sorted_pair a b :
  py_sorted [a; b] = if String.ltb b a then [b; a] else [a; b].
Proof. reflexivity. Qed.

Lemma ltb_asym a b : String.ltb a b = true → String.ltb b a = false.
Proof.
  unfold String.ltb. rewrite (String.compare_antisym a b).
  by destruct (String.compare b a).
Qed.

Lemma ltb_total a b :
  String.ltb a b = false → String.ltb b a = false → a = b.
Proof.
  unfold String.ltb. rewrite (String.compare_antisym a b).
  destruct (String.compare b a) eqn:Hc; try done.
  intros _ _. symmetry. by apply String.compare_eq_iff.
Qed.

Lemma py_sorted_pair_sym a b : py_sorted [a; b] = py_sorted [b; a].
Proof.
  rewrite !py_sorted_pair.
  destruct (String.ltb b a) eqn:Hba, (String.ltb a b) eqn:Hab; try done.
  - apply ltb_asym in Hba. congruence.
  - by rewrite (ltb_total a b).
Qed.

Lemma compat_key_sym a b : compat_key a b = compat_key b a.
Proof. unfold compat_key. by rewrite py_sorted_pair_sym. Qed.

(** The key spelled out: the smaller identifier, a colon, the larger. *)
Lemma compat_key_unfold a b :
  compat_key a b =
  "compat:" +:+ (if String.ltb b a then b +:+ ":" +:+ a else a +:+ ":" +:+ b).
Proof.
  unfold compat_key. rewrite py_sorted_pair. by destruct (String.ltb b a).
Qed.

(** An identifier without the delimiter. *)
Fixpoint colon_free (s : string) : bool :=
  match s with
  | EmptyString => true
  | String c s' => negb (Ascii.eqb c ":"%char) && colon_free s'
  end.

Lemma colon_split_inj x1 x2 y1 y2 :
  colon_free x1 = true → colon_free y1 = true →
  x1 +:+ ":" +:+ x2 = y1 +:+ ":" +:+ y2 → x1 = y1 ∧ x2 = y2.
Proof.
  revert y1. induction x1 as [|c x1 IH]; intros [|d y1]; cbn [colon_free].
  - intros _ _. cbv [String.append]. by intros [= ->].
  - intros _ [Hd _]%andb_true_iff. cbv [String.append]. fold String.append.
    intros [= <- _]. done.
  - intros [Hc _]%andb_true_iff _. cbv [String.append]. fold String.append.
    intros [= -> _]. done.
  - intros [_ Hx]%andb_true_iff [_ Hy]%andb_true_iff.
    change (String c x1 +:+ ":" +:+ x2) with (String c (x1 +:+ ":" +:+ x2)).
    change (String d y1 +:+ ":" +:+ y2) with (String d (y1 +:+ ":" +:+ y2)).
    intros [= -> Heq]. destruct (IH _ Hx Hy Heq) as [-> ->]. done.
Qed.

Lemma compat_key_inj_colon_free a b c d :
  colon_free a = true → colon_free b = true →
  colon_free c = true → colon_free d = true →
  compat_key a b = compat_key c d →
  (a = c ∧ b = d) ∨ (a = d ∧ b = c).
Proof.
  intros Ha Hb Hc Hd. rewrite !compat_key_unfold.
  intros Heq%String.app_inj.
  destruct (String.ltb b a), (String.ltb d c);
    apply colon_split_inj in Heq as [-> ->]; auto.
Qed.

(** ** Facts about the Pairwise Scorer *)


Lemma neutral_score_unit : (Q2Qc 0 ≤ neutral_score ≤ Q2Qc 1)%Qc.
Proof. done. Qed.


Lemma cached_score_sym w a b : cached_score w a b = cached_score w b a.
Proof. unfold cached_score. by rewrite (compat_key_sym a b). Qed.

Lemma cached_score_same w w' a b :
  same_env w w' →
  redis_data w' !! compat_key a b = redis_data w !! compat_key a b →
  cached_score w' a b = cached_score w a b.
Proof.
  intros Henv Hk. unfold cached_score.
  rewrite (live_value_same w w') by (done || apply Henv).
  by destruct Henv as [-> _].
Qed.

Section ScorerFacts.
Variable config : InferenceConfig.
Variable model : HybridRecommender.t.

Lemma predict_hit a b w q :
  cached_score w a b = Some q →
  ModelInferenceEngine.predict_compatibility config model a b w
  = (Ok q, incr_cache_hits w).
Proof.
  intros Hc. rewrite predict_compatibility_eq.
  unfold predict_value, after_predict. by rewrite Hc.
Qed.


(** The only way a score gets written: a miss, two resolved profiles,
    a model that returned, and a Redis that took the write. *)
Lemma predict_write_inv a b w new k ttl v :
  trace (after_predict config model a b w) = new ++ trace w →
  In (RedisSetex k ttl (RScore v)) new →
  k = compat_key a b ∧ ttl = compat_ttl config ∧ 0 < compat_ttl config
  ∧ redis_up w = true ∧ cached_score w a b = None
  ∧ predict_value model a b w = v
  ∧ model_calls new = 1%nat
  ∧ redis_data (after_predict config model a b w) !! compat_key a b
    = Some (mkEntry (RScore v) (clock w + compat_ttl config)).
Proof.
  intros Htr Hin.
  destruct (trace_after_predict config model a b w) as (news & Hp & Ht).
  rewrite Htr in Ht. apply app_inv_tail in Ht. subst new.
  pose proof (profile_event_not_score_write news k ttl v Hp) as Hno.
  pose proof (no_profile_event_is_model_call news Hp) as Hcalls.
  unfold predict_events, predict_value, after_predict in *.
  destruct (cached_score w a b) eqn:Hc; [done|].
  assert (clock (after_resolve config b (after_resolve config a w)) = clock w)
    as Hclk.
  { eapply (same_env_trans w); apply same_env_after_resolve. }
  assert (redis_up (after_resolve config b (after_resolve config a w))
          = redis_up w) as Hup.
  { eapply (same_env_trans w); apply same_env_after_resolve. }
  destruct (resolve w a) as [p1|]; [|done].
  destruct (resolve w b) as [p2|]; [|done].
  destruct (scored model p1 p2) as [s|e].
  - destruct (redis_up w) eqn:Hw; simpl in Hin.
    + case_bool_decide as Httl; simpl in Hin.
      * destruct Hin as [[= <- <- <-]|[[=]|Hin]]; [|done].
        repeat split; try done.
        -- unfold model_calls in *. simpl. by rewrite Hcalls.
        -- unfold cache_write. simpl. rewrite Hup, bool_decide_eq_true_2 by done.
           simpl. by rewrite lookup_insert_eq, Hclk.
      * by destruct Hin as [[=]|Hin].
    + by destruct Hin as [[=]|Hin].
  - by destruct Hin as [[=]|Hin].
Qed.

(** Within the TTL the written score answers either argument order. *)
Lemma predict_after_write a b x y w v t :
  compat_key x y = compat_key a b →
  redis_up w = true →
  redis_data w !! compat_key a b = Some (mkEntry (RScore v) (clock w + compat_ttl config)) →
  clock w <= t < clock w + compat_ttl config →
  ModelInferenceEngine.predict_compatibility config model x y (set_clock t w)
  = (Ok v, incr_cache_hits (set_clock t w)).
Proof.
  intros Hk Hup Hd Ht. apply predict_hit.
  unfold cached_score, live_value. simpl. rewrite Hup, Hk, Hd. simpl.
  rewrite decide_True; [done|lia].
Qed.
End ScorerFacts.

(** ** The Candidate Ranker as a function of the world *)

Section RankerFacts.
Variable config : InferenceConfig.
Variable model : HybridRecommender.t.

Fixpoint gather_values (uid : string) (cands : list string) (w : World)
  : list Qc :=
  match cands with
  | [] => []
  | c :: cs =>
      predict_value model uid c w
      :: gather_values uid cs (after_predict config model uid c w)
  end.

Fixpoint after_gather (uid : string) (cands : list string) (w : World)
  : World :=
  match cands with
  | [] => w
  | c :: cs => after_gather uid cs (after_predict config model uid c w)
  end.

Lemma gather_predict_eq uid cands w :
  gather (ModelInferenceEngine.predict_compatibility config model uid) cands w
  = (Ok (gather_values uid cands w), after_gather uid cands w).
Proof.
  revert w. induction cands as [|c cs IH]; intros w; [done|].
  cbn [gather gather_values after_gather]. unfold bind at 1.
  rewrite predict_compatibility_eq. unfold bind at 1. by rewrite IH.
Qed.

Lemma length_gather_values uid cands w :
  length (gather_values uid cands w) = length cands.
Proof.
  revert w. induction cands as [|c cs IH]; intros w; [done|].
  simpl. by rewrite IH.
Qed.

Lemma same_env_after_gather uid cands w :
  same_env w (after_gather uid cands w).
Proof.
  revert w. induction cands as [|c cs IH]; intros w;
    [apply same_env_refl|].
  simpl. eapply same_env_trans; [apply same_env_after_predict|apply IH].
Qed.

Lemma resolve_after_gather uid cands w y :
  resolve (after_gather uid cands w) y = resolve w y.
Proof.
  revert w. induction cands as [|c cs IH]; intros w; [done|].
  simpl. by rewrite IH, resolve_after_predict.
Qed.

Definition matches_write (e : event) : bool :=
  match e with RedisSetex _ _ (RMatches _) => true | _ => false end.

Lemma profile_event_no_matches_write new :
  forallb (profile_event) new = true →
  forallb (λ e, negb (matches_write e)) new = true.
Proof.
  induction new as [|e new IH]; [done|].
  simpl. intros [He Hn]%andb_true_iff. rewrite IH by done.
  by destruct e as [| | |? ? []].
Qed.

Lemma trace_after_predict_no_matches a b w :
  ∃ new, trace (after_predict config model a b w) = new ++ trace w
         ∧ forallb (λ e, negb (matches_write e)) new = true.
Proof.
  destruct (trace_after_predict config model a b w) as (news & Hp & Ht).
  eexists. split; [exact Ht|].
  apply profile_event_no_matches_write in Hp.
  unfold predict_events.
  destruct (cached_score w a b); [done|].
  destruct (resolve w a) as [p1|]; [|done].
  destruct (resolve w b) as [p2|]; [|done].
  destruct (scored model p1 p2); [|done].
  rewrite forallb_app. simpl. rewrite Hp.
  by destruct (redis_up w && _).
Qed.

Lemma trace_after_gather_no_matches uid cands w :
  ∃ new, trace (after_gather uid cands w) = new ++ trace w
         ∧ forallb (λ e, negb (matches_write e)) new = true.
Proof.
  revert w. induction cands as [|c cs IH]; intros w; [by exists []|].
  simpl.
  destruct (IH (after_predict config model uid c w)) as (n2 & Ht2 & Hn2).
  destruct (trace_after_predict_no_matches uid c w) as (n1 & Ht1 & Hn1).
  exists (n2 ++ n1). split.
  - by rewrite Ht2, Ht1, app_assoc.
  - by rewrite forallb_app, Hn1, Hn2.
Qed.

(** The candidate list the ranker works on, and the roster read that
    produces it when the caller gave none. *)
Definition recommend_candidates (uid : string)
    (candidate_ids : option (list string)) (w : World) : list string :=
  if negb (truthy candidate_ids)
  then filter (λ cid, cid ≠ uid)
         (DatabaseManager.select_active_users w (max_candidates config))
  else default [] candidate_ids.

Definition after_candidates (candidate_ids : option (list string))
    (w : World) : World :=
  if negb (truthy candidate_ids)
  then emit (DbGetActiveUsers (max_candidates config)) w
  else w.

Lemma get_recommendations_eq uid candidate_ids top_k w :
  ModelInferenceEngine.get_recommendations config model uid candidate_ids top_k w
  = if truthy (cached_matches w uid) && negb (truthy candidate_ids) then
      (Ok (py_slice_to top_k (default [] (cached_matches w uid))),
       incr_cache_hits w)
    else
      match resolve w uid with
      | None => (Ok [], after_resolve config uid w)
      | Some _ =>
          let w1 := after_candidates candidate_ids (after_resolve config uid w) in
          let ids := recommend_candidates uid candidate_ids w in
          let w2 := after_gather uid ids w1 in
          let recs :=
            ModelInferenceEngine.rank (clock w) ids (gather_values uid ids w1) in
          (Ok (py_slice_to top_k recs),
           incr_request_count
             (if negb (truthy (Some ids))
              then cache_write (matches_key uid) (list_ttl config)
                     (RMatches (py_slice_to 50 recs)) w2
              else w2))
      end.
Proof.
  unfold ModelInferenceEngine.get_recommendations. unfold bind at 1.
  rewrite get_precomputed_matches_eq.
  destruct (truthy (cached_matches w uid) && negb (truthy candidate_ids));
    [done|].
  unfold bind at 1. rewrite engine_get_user_profile_eq.
  destruct (resolve w uid) as [p|]; [|done].
  pose proof (same_env_after_resolve config uid w) as Henv.
  unfold recommend_candidates, after_candidates.
  assert (∀ w', same_env w w' →
     clock (after_gather uid (recommend_candidates uid candidate_ids w) w')
     = clock w) as Hclock.
  { intros w' Hw'. eapply (same_env_trans w); [exact Hw'|].
    apply same_env_after_gather. }
  unfold recommend_candidates in Hclock.
  destruct (negb (truthy candidate_ids)) eqn:Hsup.
  - unfold bind at 1. unfold bind at 1.
    rewrite db_get_active_users_eq. unfold ret at 1. cbv beta iota.
    assert (DatabaseManager.select_active_users
              (after_resolve config uid w) (max_candidates config)
            = DatabaseManager.select_active_users w (max_candidates config))
      as ->.
    { unfold DatabaseManager.select_active_users.
      destruct Henv as (_ & -> & _ & -> & _). done. }
    unfold bind at 1. rewrite gather_predict_eq.
    unfold bind, gets, modify, ret. cbv beta iota.
    rewrite Hclock
      by (eapply same_env_trans; [exact Henv|apply same_env_emit]).
    destruct (negb (truthy (Some _))); [|done].
    by rewrite set_precomputed_matches_eq.
  - unfold bind at 1. unfold ret at 1. cbv beta iota.
    unfold bind at 1. rewrite gather_predict_eq.
    unfold bind, gets, modify, ret. cbv beta iota.
    rewrite Hclock by exact Henv.
    destruct (negb (truthy (Some _))); [|done].
    by rewrite set_precomputed_matches_eq.
Qed.
End RankerFacts.

(** ** The sort of the ranking step *)

(** [x] may stand before [y] in a list sorted by score, highest first. *)
Definition score_ge (x y : Recommendation) : Prop :=
  (compatibility_score y ≤ compatibility_score x)%Qc.

Definition has_score (v : Qc) (r : Recommendation) : Prop :=
  compatibility_score r = v.

Global Instance has_score_dec v r : Decision (has_score v r).
Proof. unfold has_score. apply _. Defined.

Lemma Qc_ltb_true x y : Qc_ltb x y = true → (x < y)%Qc.
Proof. unfold Qc_ltb. by intros ?%bool_decide_eq_true. Qed.

Lemma Qc_ltb_false x y : Qc_ltb x y = false → (y ≤ x)%Qc.
Proof.
  unfold Qc_ltb. intros ?%bool_decide_eq_false. by apply Qcnot_lt_le.
Qed.

Lemma insert_by_score_perm x l : insert_by_score x l ≡ₚ x :: l.
Proof.
  induction l as [|y l IH]; [done|]. simpl.
  destruct (Qc_ltb _ _); [|done].
  rewrite IH. apply Permutation_swap.
Qed.

Lemma sort_by_score_reverse_perm l : sort_by_score_reverse l ≡ₚ l.
Proof.
  induction l as [|x l IH]; [done|]. simpl.
  by rewrite insert_by_score_perm, IH.
Qed.

Lemma insert_by_score_sorted x l :
  StronglySorted score_ge l → StronglySorted score_ge (insert_by_score x l).
Proof.
  induction 1 as [|y l Hl IH Hy]; simpl.
  - by repeat constructor.
  - destruct (Qc_ltb _ _) eqn:Hlt.
    + constructor; [done|].
      apply (Forall_forall (score_ge y)). intros z Hz.
      apply (Permutation_in _ (insert_by_score_perm x l)) in Hz.
      destruct Hz as [<-|Hz].
      * apply Qclt_le_weak. by apply Qc_ltb_true.
      * by eapply (proj1 (Forall_forall _ _) Hy).
    + apply Qc_ltb_false in Hlt.
      constructor; [by constructor|].
      constructor; [done|].
      apply (Forall_forall (score_ge x)). intros z Hz. unfold score_ge.
      eapply Qcle_trans; [|exact Hlt].
      by eapply (proj1 (Forall_forall _ _) Hy).
Qed.

Lemma sort_by_score_reverse_sorted l :
  StronglySorted score_ge (sort_by_score_reverse l).
Proof.
  induction l as [|x l IH]; [constructor|].
  simpl. by apply insert_by_score_sorted.
Qed.

(** Stability: among the records of one score the input order stays. *)
Lemma insert_by_score_stable v x l :
  filter (has_score v) (insert_by_score x l) = filter (has_score v) (x :: l).
Proof.
  induction l as [|y l IH]; [done|]. simpl.
  destruct (Qc_ltb _ _) eqn:Hlt; [|done].
  rewrite filter_cons, IH, !filter_cons.
  apply Qc_ltb_true in Hlt.
  destruct (decide (has_score v y)) as [Hy|Hy],
           (decide (has_score v x)) as [Hx|Hx]; try done.
  unfold has_score in *. subst v. rewrite Hx in Hlt.
  by apply Qclt_not_eq in Hlt.
Qed.

Lemma sort_by_score_reverse_stable v l :
  filter (has_score v) (sort_by_score_reverse l) = filter (has_score v) l.
Proof.
  induction l as [|x l IH]; [done|]. simpl.
  by rewrite insert_by_score_stable, !filter_cons, IH.
Qed.

(** Slicing with a non-negative stop. *)
Lemma length_py_slice_to {A} (k : Z) (l : list A) :
  0 <= k → Z.of_nat (length (py_slice_to k l)) = Z.min (Z.of_nat (length l)) k.
Proof.
  intros Hk. unfold py_slice_to. rewrite decide_True by done.
  rewrite length_take. lia.
Qed.

Lemma length_rank now ids scores :
  length scores = length ids →
  length (ModelInferenceEngine.rank now ids scores) = length ids.
Proof.
  intros Hlen. unfold ModelInferenceEngine.rank.
  rewrite (Permutation_length (sort_by_score_reverse_perm _)).
  rewrite length_zip_with. lia.
Qed.

(** * Concrete worlds *)

Module Examples.

(** A profile whose eighteen attributes all have the same value: its
    feature vector is parallel to that of any other such profile, so
    their cosine similarity is 1 and the collaborative score
    [(1 + 1) / 2] is 1. *)
Definition uniform_attributes (q : Qc) : gmap string Qc :=
  list_to_map (map (λ k, (k, q)) PlantedFeatureEncoder.schema).

(** [InferenceConfig()] with every default. *)
Definition default_config : InferenceConfig := InferenceConfig_init None None.

(** A regressor that answers with the first feature of the combined
    vector, that is with the first user's [motivation_score]; no deep
    network (the serving engine never rebuilds one); the default
    ensemble weights 0.4, 0.4, 0.2. *)
Definition first_feature_model : HybridRecommender.t :=
  HybridRecommender.mk
    (λ combined, Some (nth 0 combined (Q2Qc 0)))
    None
    (Q2Qc (2 # 5)) (Q2Qc (2 # 5)) (Q2Qc (1 # 5))
    (λ _ _, Q2Qc 1).

(** Two active users with profiles, a cold and reachable Redis. *)
Definition world_AB : World :=
  mkWorld ∅ true true
    (<["A" := uniform_attributes (Q2Qc (1 # 5))]>
       (<["B" := uniform_attributes (Q2Qc (4 # 5))]> ∅))
    ["A"; "B"] 1000 0 0 [].

(** The requesting user is the only active user. *)
Definition world_alone : World :=
  mkWorld ∅ true true
    (<["A" := uniform_attributes (Q2Qc (1 # 5))]> ∅)
    ["A"] 1000 0 0 [].

(** A stored profile with an attribute outside the unit interval. *)
Definition world_out_of_range : World :=
  mkWorld ∅ true true
    (<["A" := <["motivation_score" := Q2Qc 7]> (uniform_attributes (Q2Qc (1 # 5)))]> ∅)
    ["A"] 1000 0 0 [].

(** User [u] with cached scores 0.9, 0.9 and 0.7 for [a], [b], [c]. *)
Definition world_tie : World :=
  mkWorld
    (<[compat_key "u" "a" := mkEntry (RScore (Q2Qc (9 # 10))) 5000]>
       (<[compat_key "u" "b" := mkEntry (RScore (Q2Qc (9 # 10))) 5000]>
          (<[compat_key "u" "c" := mkEntry (RScore (Q2Qc (7 # 10))) 5000]> ∅)))
    true true
    (<["u" := uniform_attributes (Q2Qc (1 # 2))]> ∅)
    ["u"] 1000 0 0 [].

End Examples.

(** * The claims *)

(** ** C10: the compatibility key *)

(** C10. The key ["compat:" + ":".join(sorted([a, b]))] is the same for
    both argument orders, for all identifier strings; on identifiers
    without a colon equal keys force equal unordered pairs; and the
    pairs {a, b:c} and {a:b, c} are different and share the key
    [compat:a:b:c], so a score written for one is read back for the
    other. *)
Theorem C10_compat_key_symmetric_injective_without_colon :
  (∀ a b, compat_key a b = compat_key b a)
  ∧ (∀ a b c d,
       colon_free a = true → colon_free b = true →
       colon_free c = true → colon_free d = true →
       compat_key a b = compat_key c d →
       (a = c ∧ b = d) ∨ (a = d ∧ b = c))
  ∧ (∃ a b c d,
       ¬ ((a = c ∧ b = d) ∨ (a = d ∧ b = c))
       ∧ compat_key a b = compat_key c d
       ∧ ∀ config q w,
           redis_up w = true → 0 < cache_ttl config →
           fst (get_compatibility_score c d
                  (snd (set_compatibility_score config a b q w)))
           = Ok (Some q)).
Proof.
  split; [exact compat_key_sym|].
  split; [exact compat_key_inj_colon_free|].
  exists "a", "b:c", "a:b", "c".
  split; [intros [[[=] _]|[[=] _]]|].
  split; [reflexivity|].
  intros config q w Hup Httl.
  rewrite set_compatibility_score_eq, get_compatibility_score_eq. simpl.
  unfold cached_score.
  destruct (same_env_cache_write (compat_key "a" "b:c") (compat_ttl config)
              (RScore q) w) as [-> _].
  rewrite Hup.
  change (compat_key "a:b" "c") with (compat_key "a" "b:c").
  rewrite live_value_cache_write_eq; [done|done|].
  unfold compat_ttl. lia.
Qed.

Lemma C10_witness :
  ("ann" = "bob" ∧ "bob" = "ann") ∨ ("ann" = "ann" ∧ "bob" = "bob").
Proof.
  apply (proj1 (proj2 C10_compat_key_symmetric_injective_without_colon)
           "ann" "bob" "bob" "ann"); reflexivity.
Defined.

(** ** C4: the three TTLs *)

(** The ordering the specification asks of a configuration. *)
Definition ttl_ordering (config : InferenceConfig) : Prop :=
  list_ttl config > compat_ttl config ∧ compat_ttl config > profile_ttl config.

(** The constructor accepts a base TTL of zero, and the three TTLs of
    the configuration it returns are all equal. *)
Lemma C4_counterexample :
  cache_ttl (InferenceConfig_init (Some 0) None) = 0
  ∧ ¬ ttl_ordering (InferenceConfig_init (Some 0) None).
Proof.
  split; [reflexivity|].
  unfold ttl_ordering, list_ttl, compat_ttl, profile_ttl. simpl. lia.
Qed.

(** C4, amended. The constructor stores whatever base TTL it is given;
    the profile, compatibility and list TTLs are that base times 1, 2
    and 6, so the ordering list > compatibility > profile holds exactly
    for the configurations whose base TTL is positive. *)
Theorem C4_ttl_ordering_iff_positive_base (base : Z) (limit : option Z) :
  let config := InferenceConfig_init (Some base) limit in
  cache_ttl config = base
  ∧ profile_ttl config = base
  ∧ compat_ttl config = base * 2
  ∧ list_ttl config = base * 6
  ∧ (ttl_ordering config ↔ 0 < base).
Proof.
  unfold ttl_ordering, list_ttl, compat_ttl, profile_ttl. simpl.
  repeat split; lia.
Qed.

Lemma C4_witness : ttl_ordering (InferenceConfig_init (Some 3600) None).
Proof.
  apply (proj2 (proj2 (proj2 (proj2
           (C4_ttl_ordering_iff_positive_base 3600 None))))).
  reflexivity.
Defined.

(** ** C7: the Profile Resolver *)

Lemma cached_profile_cold_later w w' uid :
  redis_up w = true → cached_profile w uid = None →
  redis_data w' = redis_data w → clock w <= clock w' →
  cached_profile w' uid = None.
Proof.
  unfold cached_profile, live_value. intros -> Hcold -> Hclk.
  destruct (redis_up w'); [|done].
  destruct (redis_data w !! user_profile_key uid) as [e|]; [|done].
  destruct (decide (clock w' < expires e)) as [Hlive|]; [|done].
  rewrite decide_True in Hcold by lia. done.
Qed.

(** C7. With Redis reachable and no live profile entry for the user,
    [get_user_profile] issues exactly one store read. If the store has
    the profile, it is returned and written under the user's key with
    the profile TTL, and a second resolve at any time within that TTL
    returns the same profile without a store read. If the store has
    nothing, [None] is returned, Redis is left as it was, and a later
    resolve reads the store again and returns whatever it then holds. *)
Theorem C7_resolve_reads_store_once_then_cache config uid w :
  redis_up w = true →
  fst (CacheManager.get_user_profile uid w) = Ok None →
  let stored := DatabaseManager.select_user_profile w uid in
  ∃ new1 w1,
    ModelInferenceEngine.get_user_profile config uid w = (Ok stored, w1)
    ∧ trace w1 = new1 ++ trace w
    ∧ store_reads new1 = 1%nat
    ∧ (∀ p, stored = Some p →
         (0 < profile_ttl config →
            redis_data w1 !! user_profile_key uid
            = Some (mkEntry (RProfile p) (clock w + profile_ttl config)))
         ∧ (∀ t, clock w <= t < clock w + profile_ttl config →
              ∃ w2,
                ModelInferenceEngine.get_user_profile config uid (set_clock t w1)
                = (Ok (Some p), w2)
                ∧ trace w2 = trace w1))
    ∧ (stored = None →
         redis_data w1 = redis_data w
         ∧ (∀ w', redis_data w' = redis_data w1 → clock w <= clock w' →
              ∃ new2 w2,
                ModelInferenceEngine.get_user_profile config uid w'
                = (Ok (DatabaseManager.select_user_profile w' uid), w2)
                ∧ trace w2 = new2 ++ trace w'
                ∧ store_reads new2 = 1%nat)).
Proof.
  intros Hup Hcold stored.
  rewrite get_user_profile_eq in Hcold. simpl in Hcold.
  injection Hcold as Hcold.
  destruct (trace_after_resolve config uid w) as (new1 & Ht1 & _ & Hreads).
  rewrite Hcold in Hreads.
  exists new1, (after_resolve config uid w).
  split.
  { rewrite engine_get_user_profile_eq. unfold resolve. by rewrite Hcold. }
  split; [done|]. split; [done|]. split.
  - intros p Hp. unfold after_resolve. rewrite Hcold. fold stored. rewrite Hp.
    unfold cache_write. simpl. rewrite Hup. simpl. split.
    + intros Httl. rewrite bool_decide_eq_true_2 by done. simpl.
      by rewrite lookup_insert_eq.
    + intros t Ht. rewrite bool_decide_eq_true_2 by lia.
      eexists. rewrite engine_get_user_profile_eq. split.
      * unfold resolve, after_resolve, cached_profile, live_value. simpl.
        rewrite Hup, lookup_insert_eq. simpl.
        rewrite decide_True by lia. reflexivity.
      * reflexivity.
  - intros Hnone. unfold after_resolve. rewrite Hcold. fold stored.
    rewrite Hnone. simpl. split; [done|].
    intros w' Hdata Hclk.
    assert (cached_profile w' uid = None) as Hcold'
      by (by eapply cached_profile_cold_later).
    destruct (trace_after_resolve config uid w') as (new2 & Ht2 & _ & Hreads2).
    rewrite Hcold' in Hreads2.
    exists new2, (after_resolve config uid w').
    rewrite engine_get_user_profile_eq. unfold resolve. by rewrite Hcold'.
Qed.

Lemma C7_witness :
  ∃ new1 w1,
    ModelInferenceEngine.get_user_profile Examples.default_config "A"
      Examples.world_AB
    = (Ok (DatabaseManager.select_user_profile Examples.world_AB "A"), w1)
    ∧ trace w1 = new1 ++ trace Examples.world_AB
    ∧ store_reads new1 = 1%nat.
Proof.
  destruct (C7_resolve_reads_store_once_then_cache Examples.default_config "A"
              Examples.world_AB eq_refl eq_refl)
    as (new1 & w1 & Hrun & Htrace & Hreads & _).
  by exists new1, w1.
Defined.

(** ** C9: what the Scoring Function is fed *)

Definition in_unit_interval (q : Qc) : Prop := (Q2Qc 0 ≤ q ≤ Q2Qc 1)%Qc.

(** The store holds a [motivation_score] of 7 for user A; the resolver
    returns the row as it is and the encoder passes the 7 on. *)
Lemma C9_counterexample :
  ∃ p w',
    ModelInferenceEngine.get_user_profile Examples.default_config "A"
      Examples.world_out_of_range = (Ok (Some p), w')
    ∧ PlantedFeatureEncoder.encode_user_features (attributes p) !! 0%nat
      = Some (Q2Qc 7)
    ∧ ¬ Forall in_unit_interval
          (PlantedFeatureEncoder.encode_user_features (attributes p)).
Proof.
  eexists _, _. split; [reflexivity|]. split; [reflexivity|].
  intros H.
  assert (in_unit_interval (Q2Qc 7)) as [_ Hle].
  { apply (proj1 (List.Forall_forall _ _) H). left. reflexivity. }
  revert Hle. by vm_compute.
Qed.

(** C9, amended. For every profile the resolver returns, the encoder
    hands the Scoring Function a vector of exactly eighteen numbers, one
    per schema attribute in schema order: the value in the record when
    the key is there, 0.5 when it is missing. The values are not
    range-checked: the vector lies in the unit interval when all the
    attributes in the record do. The defaulting is the encoder's: on a
    cache miss the resolver returns the stored row unchanged. *)
Theorem C9_encoder_defaults_missing_attributes config uid w p w' :
  ModelInferenceEngine.get_user_profile config uid w = (Ok (Some p), w') →
  let features := PlantedFeatureEncoder.encode_user_features (attributes p) in
  length features = 18%nat
  ∧ features
    = map (λ k, default neutral_score (attributes p !! k))
          PlantedFeatureEncoder.schema
  ∧ ((∀ k q, attributes p !! k = Some q → in_unit_interval q) →
     Forall in_unit_interval features)
  ∧ (fst (CacheManager.get_user_profile uid w) = Ok None →
     user_profiles w !! uid = Some (attributes p)).
Proof.
  intros Hrun features. split; [done|]. split; [done|]. split.
  - intros Hrange. subst features.
    change (PlantedFeatureEncoder.encode_user_features (attributes p))
      with (map (λ k, default neutral_score (attributes p !! k))
                PlantedFeatureEncoder.schema).
    apply Forall_map. apply Forall_forall. intros k _. simpl.
    destruct (attributes p !! k) as [q|] eqn:Hk; simpl.
    + by eapply Hrange.
    + apply neutral_score_unit.
  - rewrite get_user_profile_eq. simpl. intros [= Hcold].
    rewrite engine_get_user_profile_eq in Hrun.
    injection Hrun as Hres _. unfold resolve in Hres. rewrite Hcold in Hres.
    unfold DatabaseManager.select_user_profile in Hres.
    destruct (db_up w); [|done].
    destruct (user_profiles w !! uid) as [row|]; [|done].
    simpl in Hres. by injection Hres as <-.
Qed.

Lemma C9_witness :
  length (PlantedFeatureEncoder.encode_user_features
            (Examples.uniform_attributes (Q2Qc (1 # 5)))) = 18%nat.
Proof.
  exact (proj1 (C9_encoder_defaults_missing_attributes Examples.default_config
                  "A" Examples.world_AB
                  (mkUserProfile "A" (Examples.uniform_attributes (Q2Qc (1 # 5))))
                  _ eq_refl)).
Defined.

(** ** C5: the Pairwise Scorer always answers *)



(** ** C6: scoring twice within the TTL *)

(** C6. If a call of [predict_compatibility] for (a, b) wrote its score
    to Redis, then a second call for (a, b) made at any time within the
    compatibility TTL of the first returns the same value, and the model
    is called once in the first call and not at all in the second. *)
Theorem C6_second_score_within_ttl_is_cached
    config model a b w r1 w1 new1 ttl v t r2 w2 new2 :
  ModelInferenceEngine.predict_compatibility config model a b w = (r1, w1) →
  trace w1 = new1 ++ trace w →
  In (RedisSetex (compat_key a b) ttl (RScore v)) new1 →
  clock w <= t < clock w + compat_ttl config →
  ModelInferenceEngine.predict_compatibility config model a b (set_clock t w1)
  = (r2, w2) →
  trace w2 = new2 ++ trace w1 →
  r1 = Ok v ∧ r2 = Ok v
  ∧ model_calls new1 = 1%nat ∧ model_calls new2 = 0%nat
  ∧ model_calls (new2 ++ new1) = 1%nat.
Proof.
  intros Hrun1 Htr1 Hin Ht Hrun2 Htr2.
  rewrite predict_compatibility_eq in Hrun1. injection Hrun1 as <- <-.
  destruct (predict_write_inv config model a b w new1 _ ttl v Htr1 Hin)
    as (_ & _ & _ & Hup & _ & Hv & Hcalls & Hdata).
  destruct (same_env_after_predict config model a b w)
    as (Hup1 & _ & _ & _ & Hclk1).
  rewrite (predict_after_write config model a b a b (after_predict config model a b w) v t)
    in Hrun2; [|done|congruence|by rewrite Hclk1|by rewrite Hclk1].
  injection Hrun2 as <- <-. simpl in Htr2.
  assert (new2 = []) as ->.
  { apply (app_inv_tail (trace (after_predict config model a b w))).
    by rewrite <- Htr2. }
  by rewrite Hv.
Qed.

Lemma C6_witness :
  let run1 :=
    ModelInferenceEngine.predict_compatibility Examples.default_config
      Examples.first_feature_model "A" "B" Examples.world_AB in
  let run2 :=
    ModelInferenceEngine.predict_compatibility Examples.default_config
      Examples.first_feature_model "A" "B" (set_clock 2000 (snd run1)) in
  fst run1 = fst run2 ∧ model_calls (trace (snd run2)) = 1%nat.
Proof.
  intros run1 run2.
  destruct (C6_second_score_within_ttl_is_cached Examples.default_config
              Examples.first_feature_model "A" "B" Examples.world_AB
              (fst run1) (snd run1) (trace (snd run1))
              (compat_ttl Examples.default_config)
              (predict_value Examples.first_feature_model "A" "B"
                 Examples.world_AB)
              2000 (fst run2) (snd run2) [])
    as (H1 & H2 & H3 & _).
  - vm_compute. reflexivity.
  - vm_compute. reflexivity.
  - vm_compute. left. reflexivity.
  - unfold compat_ttl. simpl. lia.
  - vm_compute. reflexivity.
  - reflexivity.
  - split; [congruence|exact H3].
Defined.

(** ** C3: symmetry of the score *)

(** On a cold cache the score of (A, B) is 0.4 * 0.2 + 0.4 * 0.5 + 0.2 * 1
    and that of (B, A) is 0.4 * 0.8 + 0.4 * 0.5 + 0.2 * 1: the regressor
    sees the two feature vectors in argument order. *)
Lemma C3_counterexample :
  ∃ x y,
    fst (ModelInferenceEngine.predict_compatibility Examples.default_config
           Examples.first_feature_model "A" "B" Examples.world_AB) = Ok x
    ∧ fst (ModelInferenceEngine.predict_compatibility Examples.default_config
             Examples.first_feature_model "B" "A" Examples.world_AB) = Ok y
    ∧ this x = (12 # 25)%Q ∧ this y = (18 # 25)%Q
    ∧ x ≠ y.
Proof.
  eexists _, _. split; [vm_compute; reflexivity|].
  split; [vm_compute; reflexivity|].
  split; [reflexivity|]. split; [reflexivity|].
  intros H. apply (f_equal this) in H. revert H. by vm_compute.
Qed.

(** C3, amended. The cache key of (a, b) is that of (b, a). Hence, in a
    world where the pair has a live cached score, both argument orders
    return that score without a model call; and once a call for (a, b)
    has written its score, a call for (b, a) at any time within the
    compatibility TTL returns the same value without a model call. On a
    miss each order returns what the model gives for that order. *)
Theorem C3_score_symmetric_through_cache config model a b w :
  compat_key a b = compat_key b a
  ∧ (∀ q, fst (get_compatibility_score a b w) = Ok (Some q) →
       ∃ wab wba,
         ModelInferenceEngine.predict_compatibility config model a b w
         = (Ok q, wab)
         ∧ ModelInferenceEngine.predict_compatibility config model b a w
           = (Ok q, wba)
         ∧ trace wab = trace w ∧ trace wba = trace w)
  ∧ (∀ r1 w1 new ttl v t,
       ModelInferenceEngine.predict_compatibility config model a b w = (r1, w1) →
       trace w1 = new ++ trace w →
       In (RedisSetex (compat_key a b) ttl (RScore v)) new →
       clock w <= t < clock w + compat_ttl config →
       ∃ w2,
         r1 = Ok v
         ∧ ModelInferenceEngine.predict_compatibility config model b a
             (set_clock t w1) = (Ok v, w2)
         ∧ trace w2 = trace w1)
  ∧ (fst (get_compatibility_score a b w) = Ok None →
     ∀ pa pb sab sba,
       fst (ModelInferenceEngine.get_user_profile config a w) = Ok (Some pa) →
       fst (ModelInferenceEngine.get_user_profile config b w) = Ok (Some pb) →
       HybridRecommender.predict_compatibility model (attributes pa) (attributes pb)
       = Ok sab →
       HybridRecommender.predict_compatibility model (attributes pb) (attributes pa)
       = Ok sba →
       fst (ModelInferenceEngine.predict_compatibility config model a b w) = Ok sab
       ∧ fst (ModelInferenceEngine.predict_compatibility config model b a w)
         = Ok sba).
Proof.
  split; [apply compat_key_sym|]. split; [|split].
  - rewrite get_compatibility_score_eq. simpl. intros q [= Hhit].
    exists (incr_cache_hits w), (incr_cache_hits w).
    rewrite (predict_hit config model a b w q) by done.
    rewrite (predict_hit config model b a w q)
      by (by rewrite cached_score_sym).
    done.
  - intros r1 w1 new ttl v t Hrun Htr Hin Ht.
    rewrite predict_compatibility_eq in Hrun. injection Hrun as <- <-.
    destruct (predict_write_inv config model a b w new _ ttl v Htr Hin)
      as (_ & _ & _ & Hup & _ & Hv & _ & Hdata).
    destruct (same_env_after_predict config model a b w)
      as (Hup1 & _ & _ & _ & Hclk1).
    eexists. split; [by rewrite Hv|]. split.
    + apply (predict_after_write config model a b b a);
        [apply compat_key_sym|congruence|by rewrite Hclk1|by rewrite Hclk1].
    + done.
  - rewrite get_compatibility_score_eq. simpl. intros [= Hmiss].
    intros pa pb sab sba.
    rewrite !engine_get_user_profile_eq. simpl. intros [= Ha] [= Hb] Hab Hba.
    rewrite !predict_compatibility_eq. simpl.
    unfold predict_value, scored.
    rewrite <- (cached_score_sym w a b), Hmiss, Ha, Hb, Hab, Hba. done.
Qed.

Lemma C3_witness :
  ∃ wab wba,
    ModelInferenceEngine.predict_compatibility Examples.default_config
      Examples.first_feature_model "u" "a" Examples.world_tie
    = (Ok (Q2Qc (9 # 10)), wab)
    ∧ ModelInferenceEngine.predict_compatibility Examples.default_config
        Examples.first_feature_model "a" "u" Examples.world_tie
      = (Ok (Q2Qc (9 # 10)), wba)
    ∧ trace wab = trace Examples.world_tie
    ∧ trace wba = trace Examples.world_tie.
Proof.
  apply (proj1 (proj2 (C3_score_symmetric_through_cache Examples.default_config
                         Examples.first_feature_model "u" "a"
                         Examples.world_tie))).
  reflexivity.
Defined.

(** ** C1: the ranked-list cache *)

Lemma no_matches_write_not_in new k ttl l :
  forallb (λ e, negb (matches_write e)) new = true →
  ¬ In (RedisSetex k ttl (RMatches l)) new.
Proof.
  induction new as [|e new IH]; [by intros _ []|].
  simpl. intros [He Hnew]%andb_true_iff [Heq|Hin]; [by subst e|by apply IH].
Qed.

Lemma py_slice_to_nil {A} (k : Z) : py_slice_to k (@nil A) = [].
Proof. unfold py_slice_to. case_decide; apply take_nil. Qed.

(** C1. Whatever the arguments of [get_recommendations], a ranked list
    it writes to Redis is the empty list, written under the user's key
    while the request itself returns the empty list: the test
    [if not candidate_ids] before the write reads the candidate list the
    function has computed by then, so it passes only when there is no
    candidate at all. A non-empty generated ranking is never cached. *)
Theorem C1_only_an_empty_ranking_is_cached
    config model uid candidate_ids top_k w r w' new k ttl l :
  ModelInferenceEngine.get_recommendations config model uid candidate_ids top_k w
  = (r, w') →
  trace w' = new ++ trace w →
  In (RedisSetex k ttl (RMatches l)) new →
  l = [] ∧ r = Ok [] ∧ k = matches_key uid ∧ ttl = list_ttl config.
Proof.
  rewrite get_recommendations_eq. intros Hrun Htr Hin.
  destruct (truthy (cached_matches w uid) && negb (truthy candidate_ids)).
  { injection Hrun as <- <-. simpl in Htr.
    rewrite <- (app_nil_l (trace w)) in Htr at 1.
    apply app_inv_tail in Htr. by subst new. }
  destruct (trace_after_resolve config uid w) as (n1 & Ht1 & Hp1 & _).
  apply profile_event_no_matches_write in Hp1.
  destruct (resolve w uid) as [p|].
  2:{ injection Hrun as <- <-. rewrite Ht1 in Htr.
      apply app_inv_tail in Htr. subst new.
      by apply no_matches_write_not_in in Hin. }
  cbv zeta in Hrun. injection Hrun as <- <-.
  set (ids := recommend_candidates config uid candidate_ids w) in *.
  set (w1 := after_candidates config candidate_ids (after_resolve config uid w)) in *.
  destruct (trace_after_gather_no_matches config model uid ids w1)
    as (n2 & Ht2 & Hn2).
  assert (∃ n0, trace w1 = n0 ++ trace w
                ∧ forallb (λ e, negb (matches_write e)) n0 = true)
    as (n0 & Ht0 & Hn0).
  { subst w1. unfold after_candidates.
    destruct (negb (truthy candidate_ids)).
    - exists (DbGetActiveUsers (max_candidates config) :: n1).
      simpl. by rewrite Ht1.
    - by exists n1. }
  destruct ids as [|c ids'] eqn:Hids.
  - simpl in Htr. rewrite trace_cache_write in Htr. simpl in Htr.
    rewrite Ht0 in Htr.
    destruct (redis_up w1 && bool_decide (0 < list_ttl config)); simpl in Htr.
    + rewrite app_comm_cons in Htr. apply app_inv_tail in Htr. subst new.
      destruct Hin as [[= <- <- <-]|Hin].
      * unfold ModelInferenceEngine.rank. simpl. by rewrite !py_slice_to_nil.
      * by apply no_matches_write_not_in in Hin.
    + apply app_inv_tail in Htr. subst new.
      by apply no_matches_write_not_in in Hin.
  - change (trace (after_gather config model uid (c :: ids') w1)
            = new ++ trace w) in Htr.
    rewrite Ht2, Ht0, app_assoc in Htr.
    apply app_inv_tail in Htr. subst new.
    apply no_matches_write_not_in in Hin; [done|].
    by rewrite forallb_app, Hn2, Hn0.
Qed.

Lemma C1_witness :
  let run :=
    ModelInferenceEngine.get_recommendations Examples.default_config
      Examples.first_feature_model "A" None 50 Examples.world_alone in
  In (RedisSetex (matches_key "A") 21600 (RMatches [])) (trace (snd run))
  ∧ fst run = Ok [].
Proof.
  intros run.
  assert (In (RedisSetex (matches_key "A") 21600 (RMatches []))
             (trace (snd run))) as Hin
    by (vm_compute; left; reflexivity).
  split; [exact Hin|].
  eapply (C1_only_an_empty_ranking_is_cached Examples.default_config
            Examples.first_feature_model "A" None 50 Examples.world_alone
            (fst run) (snd run) (trace (snd run)) (matches_key "A") 21600 []).
  - vm_compute. reflexivity.
  - vm_compute. reflexivity.
  - exact Hin.
Defined.

(** The failing input of C1: A and B are active and have profiles, the
    cache is cold and reachable. The request for A ranks B, and after
    the precompute task for A there is no ranked list under A's key. *)
Example precompute_leaves_no_ranked_list :
  let warmed :=
    snd (ModelInferenceEngine._precompute_user_matches Examples.default_config
           Examples.first_feature_model "A" Examples.world_AB) in
  redis_data warmed !! matches_key "A" = None
  ∧ (∃ l, fst (ModelInferenceEngine.get_recommendations Examples.default_config
                 Examples.first_feature_model "A" None 50 Examples.world_AB)
          = Ok l
          ∧ map rec_user_id l = ["B"])
  ∧ fst (get_precomputed_matches "A" warmed) = Ok None.
Proof.
  split; [vm_compute; reflexivity|].
  split; [|vm_compute; reflexivity].
  eexists. split; [vm_compute; reflexivity|]. reflexivity.
Qed.

(** ** C2: the order of the ranking *)

(** The order the specification asks for: score descending, and among
    equal scores identifier ascending. *)
Definition ranked_before (x y : Recommendation) : Prop :=
  (compatibility_score y < compatibility_score x)%Qc
  ∨ (compatibility_score x = compatibility_score y
     ∧ String.ltb (rec_user_id y) (rec_user_id x) = false).

(** Scores a: 0.9, b: 0.9, c: 0.7, candidates supplied as [b, a, c]: the
    ranking is [b, a, c], with b before a. *)
Lemma C2_counterexample :
  ∃ l,
    fst (ModelInferenceEngine.get_recommendations Examples.default_config
           Examples.first_feature_model "u" (Some ["b"; "a"; "c"]) 10
           Examples.world_tie) = Ok l
    ∧ map rec_user_id l = ["b"; "a"; "c"]
    ∧ map (λ r, this (compatibility_score r)) l
      = [(9 # 10)%Q; (9 # 10)%Q; (7 # 10)%Q]
    ∧ map rec_user_id l ≠ ["a"; "b"; "c"]
    ∧ ¬ StronglySorted ranked_before l.
Proof.
  eexists. split; [vm_compute; reflexivity|].
  split; [reflexivity|]. split; [reflexivity|]. split; [done|].
  intros Hs. apply StronglySorted_inv in Hs as [_ Hb].
  apply Forall_inv in Hb. destruct Hb as [Hlt|[_ Hid]].
  - revert Hlt. by vm_compute.
  - revert Hid. by vm_compute.
Qed.

(** C2, amended. When the request is not served from the cached list and
    the requesting user resolves, the list returned is the first [top_k]
    entries of a ranking of all the candidates, each paired with the
    score computed for it (positionally, so whatever the completion
    order of the scoring tasks); the ranking is in non-increasing score
    order, and candidates with equal scores stay in the order in which
    the candidate list has them. *)
Theorem C2_ranking_descending_and_stable
    config model uid candidate_ids top_k w cm p :
  fst (get_precomputed_matches uid w) = Ok cm →
  truthy cm && negb (truthy candidate_ids) = false →
  fst (ModelInferenceEngine.get_user_profile config uid w) = Ok (Some p) →
  ∃ ids scores w1 w2 w',
    (∀ l, candidate_ids = Some l → l ≠ [] → ids = l)
    ∧ gather (ModelInferenceEngine.predict_compatibility config model uid) ids w1
      = (Ok scores, w2)
    ∧ length scores = length ids
    ∧ let paired :=
        zip_with (λ cid score, mkRecommendation cid score (clock w)) ids scores in
      let full := ModelInferenceEngine.rank (clock w) ids scores in
      ModelInferenceEngine.get_recommendations config model uid candidate_ids
        top_k w = (Ok (py_slice_to top_k full), w')
      ∧ StronglySorted score_ge full
      ∧ full ≡ₚ paired
      ∧ ∀ v, filter (has_score v) full = filter (has_score v) paired.
Proof.
  rewrite get_precomputed_matches_eq, engine_get_user_profile_eq. simpl.
  intros [= <-] Hslow [= Hres].
  set (ids := recommend_candidates config uid candidate_ids w).
  set (w1 := after_candidates config candidate_ids (after_resolve config uid w)).
  exists ids, (gather_values config model uid ids w1), w1,
    (after_gather config model uid ids w1).
  eexists. split.
  { intros l -> Hl. subst ids. unfold recommend_candidates.
    by destruct l. }
  split; [apply gather_predict_eq|].
  split; [apply length_gather_values|].
  cbv zeta. split.
  { rewrite get_recommendations_eq, Hslow, Hres. reflexivity. }
  unfold ModelInferenceEngine.rank.
  split; [apply sort_by_score_reverse_sorted|].
  split; [apply sort_by_score_reverse_perm|].
  intros v. apply sort_by_score_reverse_stable.
Qed.

Lemma C2_witness :
  ∃ full,
    StronglySorted score_ge full
    ∧ fst (ModelInferenceEngine.get_recommendations Examples.default_config
             Examples.first_feature_model "u" (Some ["b"; "a"; "c"]) 2
             Examples.world_tie) = Ok (py_slice_to 2 full).
Proof.
  destruct (C2_ranking_descending_and_stable Examples.default_config
              Examples.first_feature_model "u" (Some ["b"; "a"; "c"]) 2
              Examples.world_tie None
              (mkUserProfile "u" (Examples.uniform_attributes (Q2Qc (1 # 2))))
              eq_refl eq_refl eq_refl)
    as (ids & scores & w1 & w2 & w' & _ & _ & _ & Hrun & Hsorted & _).
  eexists. split; [exact Hsorted|]. by rewrite Hrun.
Defined.

(** ** C8: one unresolvable candidate *)

Section PartialFailure.
Variable config : InferenceConfig.
Variable model : HybridRecommender.t.

(** While the key of (uid, x) is not shared with another candidate, the
    scoring of the other candidates leaves x unresolved and uncached, so
    x gets the neutral score wherever it stands in the list. *)
Lemma gather_values_neutral uid x cands w :
  resolve w x = None →
  cached_score w uid x = None →
  (∀ c, c ∈ cands → compat_key uid c = compat_key uid x → c = x) →
  ∀ i, cands !! i = Some x →
       gather_values config model uid cands w !! i = Some neutral_score.
Proof.
  revert w. induction cands as [|c cs IH]; intros w Hres Hmiss Hinj i Hi;
    [done|].
  destruct i as [|i]; simpl in *.
  - injection Hi as ->. unfold predict_value. rewrite Hmiss, Hres.
    by destruct (resolve w uid).
  - apply IH; [by rewrite resolve_after_predict| |
               intros c' Hc'; apply Hinj; by right|done].
    rewrite (cached_score_same w); [done|apply same_env_after_predict|].
    destruct (decide (compat_key uid c = compat_key uid x)) as [Heq|Hne].
    + apply Hinj in Heq as ->; [|by left].
      apply redis_data_after_predict_unresolved;
        [by right|apply compat_key_not_profile..].
    + apply redis_data_after_predict;
        [apply compat_key_not_profile..|done].
Qed.
End PartialFailure.

(** C8. The caller supplies candidates among which x has no profile to
    resolve and no live cached score with the requesting user, whose own
    profile resolves; no other candidate shares x's cache key; [top_k]
    is not negative. Then [get_recommendations] raises nothing and
    returns min(N, top_k) entries: the first [top_k] of a ranking that
    holds every one of the N candidates and in which x carries the
    score 0.5. *)
Theorem C8_unresolved_candidate_ranked_with_neutral_score
    config model uid cands top_k w x p :
  0 <= top_k →
  x ∈ cands →
  fst (ModelInferenceEngine.get_user_profile config uid w) = Ok (Some p) →
  fst (ModelInferenceEngine.get_user_profile config x w) = Ok None →
  fst (get_compatibility_score uid x w) = Ok None →
  (∀ c, c ∈ cands → compat_key uid c = compat_key uid x → c = x) →
  ∃ scores w',
    length scores = length cands
    ∧ (∀ i, cands !! i = Some x → scores !! i = Some neutral_score)
    ∧ let full := ModelInferenceEngine.rank (clock w) cands scores in
      ModelInferenceEngine.get_recommendations config model uid (Some cands)
        top_k w = (Ok (py_slice_to top_k full), w')
      ∧ Z.of_nat (length (py_slice_to top_k full))
        = Z.min (Z.of_nat (length cands)) top_k
      ∧ map rec_user_id full ≡ₚ cands
      ∧ mkRecommendation x neutral_score (clock w) ∈ full.
Proof.
  intros Hk Hx.
  rewrite !engine_get_user_profile_eq, get_compatibility_score_eq. simpl.
  intros [= Hu] [= Hres] [= Hmiss] Hinj.
  assert (truthy (Some cands) = true) as Htruthy
    by (destruct cands; [by apply elem_of_nil in Hx|done]).
  set (w1 := after_resolve config uid w).
  set (scores := gather_values config model uid cands w1).
  assert (length scores = length cands) as Hlen
    by apply length_gather_values.
  assert (∀ i, cands !! i = Some x → scores !! i = Some neutral_score)
    as Hneutral.
  { subst scores w1. apply gather_values_neutral;
      [by rewrite resolve_after_resolve
      |by rewrite cached_score_after_resolve|done]. }
  exists scores. eexists. split; [done|]. split; [done|]. cbv zeta.
  assert (zip_with (λ cid score, mkRecommendation cid score (clock w))
            cands scores ≡ₚ ModelInferenceEngine.rank (clock w) cands scores)
    as Hperm by (symmetry; apply sort_by_score_reverse_perm).
  split; [|split; [|split]].
  - rewrite get_recommendations_eq. rewrite Htruthy, andb_false_r, Hu. simpl.
    unfold recommend_candidates, after_candidates. rewrite Htruthy. simpl.
    reflexivity.
  - rewrite length_py_slice_to by done. by rewrite length_rank.
  - rewrite <- Hperm.
    assert (∀ (l : list string) (s : list Qc), length s = length l →
              map rec_user_id
                (zip_with (λ cid score, mkRecommendation cid score (clock w)) l s)
              = l) as Hmap.
    { induction l as [|c l IH]; intros [|q s] [=]; simpl; [done|].
      f_equal. by apply IH. }
    by rewrite Hmap.
  - rewrite <- Hperm.
    apply list_elem_of_lookup in Hx as [i Hi].
    apply list_elem_of_lookup. exists i.
    rewrite lookup_zip_with, Hi. simpl. by rewrite (Hneutral i Hi).
Qed.

Lemma C8_witness :
  ∃ l,
    fst (ModelInferenceEngine.get_recommendations Examples.default_config
           Examples.first_feature_model "A" (Some ["B"; "nobody"]) 10
           Examples.world_AB) = Ok l
    ∧ length l = 2%nat.
Proof.
  destruct (C8_unresolved_candidate_ranked_with_neutral_score
              Examples.default_config Examples.first_feature_model "A"
              ["B"; "nobody"] 10 Examples.world_AB "nobody"
              (mkUserProfile "A" (Examples.uniform_attributes (Q2Qc (1 # 5)))))
    as (scores & w' & _ & _ & Hrun & Hlen & _).
  - lia.
  - apply list_elem_of_In. simpl. auto.
  - reflexivity.
  - reflexivity.
  - reflexivity.
  - intros c Hc Hkey. apply list_elem_of_In in Hc.
    destruct Hc as [<-|[<-|[]]]; [|done]. revert Hkey. by vm_compute.
  - eexists. split; [by rewrite Hrun|].
    change (Z.of_nat (length ["B"; "nobody"]) `min` 10) with 2 in Hlen. lia.
Defined.

(** * Further properties of the serving core *)

(** ** The CacheManager: round trips, expiry, failures *)

Lemma live_value_cache_write_at k ttl v w t :
  redis_up w = true → 0 < ttl →
  live_value (set_clock t (cache_write k ttl v w)) k
  = if decide (t < clock w + ttl) then Some v else None.
Proof.
  intros Hup Httl. unfold cache_write.
  rewrite Hup, bool_decide_eq_true_2 by done.
  unfold live_value. simpl. by rewrite lookup_insert_eq.
Qed.

Lemma redis_up_set_clock_cache_write k ttl v w t :
  redis_up (set_clock t (cache_write k ttl v w)) = redis_up w.
Proof. unfold cache_write. by destruct (_ && _). Qed.

(** X1. A profile cached with [set_user_profile] is read back by
    [get_user_profile] at every time before [cache_ttl] seconds have
    passed, and is gone from then on. *)
Theorem profile_cache_round_trip_until_expiry config uid p w t :
  redis_up w = true → 0 < cache_ttl config →
  ∃ w1,
    CacheManager.set_user_profile config uid p w = (Ok tt, w1)
    ∧ (clock w <= t < clock w + cache_ttl config →
       CacheManager.get_user_profile uid (set_clock t w1)
       = (Ok (Some p), set_clock t w1))
    ∧ (clock w + cache_ttl config <= t →
       CacheManager.get_user_profile uid (set_clock t w1)
       = (Ok None, set_clock t w1)).
Proof.
  intros Hup Httl. eexists. split; [apply set_user_profile_eq|].
  rewrite get_user_profile_eq. unfold cached_profile.
  rewrite redis_up_set_clock_cache_write, Hup.
  rewrite live_value_cache_write_at by done. unfold profile_ttl.
  split; intros Ht; case_decide; (done || lia).
Qed.

Lemma profile_cache_round_trip_witness :
  ∃ w1,
    CacheManager.set_user_profile Examples.default_config "A"
      (mkUserProfile "A" ∅) Examples.world_AB = (Ok tt, w1)
    ∧ CacheManager.get_user_profile "A" (set_clock 4599 w1)
      = (Ok (Some (mkUserProfile "A" ∅)), set_clock 4599 w1)
    ∧ CacheManager.get_user_profile "A" (set_clock 4600 w1)
      = (Ok None, set_clock 4600 w1).
Proof.
  destruct (profile_cache_round_trip_until_expiry Examples.default_config "A"
              (mkUserProfile "A" ∅) Examples.world_AB 4599 eq_refl eq_refl)
    as (w1 & Hset & Hlive & _).
  destruct (profile_cache_round_trip_until_expiry Examples.default_config "A"
              (mkUserProfile "A" ∅) Examples.world_AB 4600 eq_refl eq_refl)
    as (w1' & Hset' & _ & Hgone).
  assert (w1' = w1) as -> by congruence.
  exists w1. split; [done|]. split.
  - apply Hlive. simpl. lia.
  - apply Hgone. simpl. lia.
Defined.

(** X2. A score cached for (a, b) is read back for (a, b) and for
    (b, a) at every time before [2 * cache_ttl] seconds have passed, and
    is gone from then on. *)
Theorem score_cache_round_trip_either_order config a b q w t :
  redis_up w = true → 0 < cache_ttl config →
  ∃ w1,
    CacheManager.set_compatibility_score config a b q w = (Ok tt, w1)
    ∧ (clock w <= t < clock w + cache_ttl config * 2 →
       CacheManager.get_compatibility_score a b (set_clock t w1)
       = (Ok (Some q), set_clock t w1)
       ∧ CacheManager.get_compatibility_score b a (set_clock t w1)
         = (Ok (Some q), set_clock t w1))
    ∧ (clock w + cache_ttl config * 2 <= t →
       CacheManager.get_compatibility_score a b (set_clock t w1)
       = (Ok None, set_clock t w1)
       ∧ CacheManager.get_compatibility_score b a (set_clock t w1)
         = (Ok None, set_clock t w1)).
Proof.
  intros Hup Httl. eexists. split; [apply set_compatibility_score_eq|].
  rewrite !get_compatibility_score_eq. rewrite <- (cached_score_sym _ a b).
  unfold cached_score.
  rewrite redis_up_set_clock_cache_write, Hup.
  rewrite live_value_cache_write_at by (done || unfold compat_ttl; lia).
  unfold compat_ttl.
  split; intros Ht; case_decide; (done || lia).
Qed.

Lemma score_cache_round_trip_witness :
  ∃ w1,
    CacheManager.set_compatibility_score Examples.default_config "A" "B"
      neutral_score Examples.world_AB = (Ok tt, w1)
    ∧ CacheManager.get_compatibility_score "B" "A" (set_clock 8199 w1)
      = (Ok (Some neutral_score), set_clock 8199 w1).
Proof.
  destruct (score_cache_round_trip_either_order Examples.default_config
              "A" "B" neutral_score Examples.world_AB 8199 eq_refl eq_refl)
    as (w1 & Hset & Hlive & _).
  exists w1. split; [done|]. apply Hlive. simpl. lia.
Defined.

(** X3. A ranked list cached with [set_precomputed_matches] is read
    back by [get_precomputed_matches] at every time before
    [6 * cache_ttl] seconds have passed, and is gone from then on. *)
Theorem matches_cache_round_trip_until_expiry config uid l w t :
  redis_up w = true → 0 < cache_ttl config →
  ∃ w1,
    CacheManager.set_precomputed_matches config uid l w = (Ok tt, w1)
    ∧ (clock w <= t < clock w + cache_ttl config * 6 →
       CacheManager.get_precomputed_matches uid (set_clock t w1)
       = (Ok (Some l), set_clock t w1))
    ∧ (clock w + cache_ttl config * 6 <= t →
       CacheManager.get_precomputed_matches uid (set_clock t w1)
       = (Ok None, set_clock t w1)).
Proof.
  intros Hup Httl. eexists. split; [apply set_precomputed_matches_eq|].
  rewrite get_precomputed_matches_eq. unfold cached_matches.
  rewrite redis_up_set_clock_cache_write, Hup.
  rewrite live_value_cache_write_at by (done || unfold list_ttl; lia).
  unfold list_ttl.
  split; intros Ht; case_decide; (done || lia).
Qed.

Lemma matches_cache_round_trip_witness :
  ∃ w1,
    CacheManager.set_precomputed_matches Examples.default_config "A"
      [mkRecommendation "B" neutral_score 1000] Examples.world_AB = (Ok tt, w1)
    ∧ CacheManager.get_precomputed_matches "A" (set_clock 22599 w1)
      = (Ok (Some [mkRecommendation "B" neutral_score 1000]),
         set_clock 22599 w1).
Proof.
  destruct (matches_cache_round_trip_until_expiry Examples.default_config "A"
              [mkRecommendation "B" neutral_score 1000] Examples.world_AB
              22599 eq_refl eq_refl)
    as (w1 & Hset & Hlive & _).
  exists w1. split; [done|]. apply Hlive. simpl. lia.
Defined.

(** X4. With Redis unreachable no CacheManager operation raises: every
    getter answers [None], every setter returns normally, and the world
    is left exactly as it was. *)
Theorem cache_unreachable_reads_miss_writes_dropped config w :
  redis_up w = false →
  (∀ uid, CacheManager.get_user_profile uid w = (Ok None, w))
  ∧ (∀ a b, CacheManager.get_compatibility_score a b w = (Ok None, w))
  ∧ (∀ uid, CacheManager.get_precomputed_matches uid w = (Ok None, w))
  ∧ (∀ uid p, CacheManager.set_user_profile config uid p w = (Ok tt, w))
  ∧ (∀ a b q, CacheManager.set_compatibility_score config a b q w = (Ok tt, w))
  ∧ (∀ uid l, CacheManager.set_precomputed_matches config uid l w = (Ok tt, w)).
Proof.
  intros Hdown. repeat split; intros.
  - rewrite get_user_profile_eq. unfold cached_profile. by rewrite Hdown.
  - rewrite get_compatibility_score_eq. unfold cached_score. by rewrite Hdown.
  - rewrite get_precomputed_matches_eq. unfold cached_matches. by rewrite Hdown.
  - rewrite set_user_profile_eq. unfold cache_write. by rewrite Hdown.
  - rewrite set_compatibility_score_eq. unfold cache_write. by rewrite Hdown.
  - rewrite set_precomputed_matches_eq. unfold cache_write. by rewrite Hdown.
Qed.

Lemma cache_unreachable_witness :
  CacheManager.get_compatibility_score "A" "B"
    (mkWorld ∅ false true ∅ [] 0 0 0 [])
  = (Ok None, mkWorld ∅ false true ∅ [] 0 0 0 []).
Proof.
  apply (proj1 (proj2 (cache_unreachable_reads_miss_writes_dropped
                         Examples.default_config
                         (mkWorld ∅ false true ∅ [] 0 0 0 []) eq_refl))).
Defined.

(** X5. With a base TTL of zero or less every cache write is refused by
    Redis and swallowed: the three setters return normally and leave the
    world as it was, so nothing is ever cached. *)
Theorem nonpositive_ttl_disables_every_cache_write config w :
  cache_ttl config <= 0 →
  (∀ uid p, CacheManager.set_user_profile config uid p w = (Ok tt, w))
  ∧ (∀ a b q, CacheManager.set_compatibility_score config a b q w = (Ok tt, w))
  ∧ (∀ uid l, CacheManager.set_precomputed_matches config uid l w = (Ok tt, w)).
Proof.
  intros Httl. repeat split; intros.
  - rewrite set_user_profile_eq. unfold cache_write, profile_ttl.
    rewrite bool_decide_eq_false_2 by lia. by rewrite andb_false_r.
  - rewrite set_compatibility_score_eq. unfold cache_write, compat_ttl.
    rewrite bool_decide_eq_false_2 by lia. by rewrite andb_false_r.
  - rewrite set_precomputed_matches_eq. unfold cache_write, list_ttl.
    rewrite bool_decide_eq_false_2 by lia. by rewrite andb_false_r.
Qed.

Lemma nonpositive_ttl_witness :
  CacheManager.set_compatibility_score (InferenceConfig_init (Some 0) None)
    "A" "B" neutral_score Examples.world_AB
  = (Ok tt, Examples.world_AB).
Proof.
  apply (proj1 (proj2 (nonpositive_ttl_disables_every_cache_write
                         (InferenceConfig_init (Some 0) None)
                         Examples.world_AB (Z.le_refl 0)))).
Defined.

Lemma live_value_cache_write_other k k' ttl v w :
  k ≠ k' → live_value (cache_write k ttl v w) k' = live_value w k'.
Proof. apply live_value_cache_write_ne. Qed.

Lemma redis_up_cache_write k ttl v w :
  redis_up (cache_write k ttl v w) = redis_up w.
Proof. apply same_env_cache_write. Qed.

(** X6. The three families of keys are isolated: caching a profile
    changes no score and no ranked list and no other user's profile;
    caching a score changes no profile and no ranked list; caching a
    ranked list changes no profile, no score and no other user's list. *)
Theorem cache_writes_leave_other_families_alone config w :
  (∀ uid p,
     let w1 := snd (CacheManager.set_user_profile config uid p w) in
     (∀ a b, fst (CacheManager.get_compatibility_score a b w1)
             = fst (CacheManager.get_compatibility_score a b w))
     ∧ (∀ x, fst (CacheManager.get_precomputed_matches x w1)
             = fst (CacheManager.get_precomputed_matches x w))
     ∧ (∀ x, x ≠ uid → fst (CacheManager.get_user_profile x w1)
                       = fst (CacheManager.get_user_profile x w)))
  ∧ (∀ a b q,
       let w1 := snd (CacheManager.set_compatibility_score config a b q w) in
       (∀ x, fst (CacheManager.get_user_profile x w1)
             = fst (CacheManager.get_user_profile x w))
       ∧ (∀ x, fst (CacheManager.get_precomputed_matches x w1)
               = fst (CacheManager.get_precomputed_matches x w)))
  ∧ (∀ uid l,
       let w1 := snd (CacheManager.set_precomputed_matches config uid l w) in
       (∀ x, fst (CacheManager.get_user_profile x w1)
             = fst (CacheManager.get_user_profile x w))
       ∧ (∀ a b, fst (CacheManager.get_compatibility_score a b w1)
                 = fst (CacheManager.get_compatibility_score a b w))
       ∧ (∀ x, x ≠ uid → fst (CacheManager.get_precomputed_matches x w1)
                         = fst (CacheManager.get_precomputed_matches x w))).
Proof.
  split; [|split].
  - intros uid p. rewrite set_user_profile_eq. simpl. repeat split.
    + intros a b. rewrite !get_compatibility_score_eq. simpl.
      unfold cached_score. rewrite redis_up_cache_write.
      rewrite live_value_cache_write_other; [done|].
      intros H. symmetry in H. by apply compat_key_not_profile in H.
    + intros x. rewrite !get_precomputed_matches_eq. simpl.
      unfold cached_matches. rewrite redis_up_cache_write.
      rewrite live_value_cache_write_other; [done|].
      intros H. symmetry in H. by apply matches_key_not_profile in H.
    + intros x Hx. rewrite !get_user_profile_eq. simpl.
      unfold cached_profile. rewrite redis_up_cache_write.
      rewrite live_value_cache_write_other; [done|].
      intros H. by apply user_profile_key_inj in H.
  - intros a b q. rewrite set_compatibility_score_eq. simpl. repeat split.
    + intros x. rewrite !get_user_profile_eq. simpl.
      unfold cached_profile. rewrite redis_up_cache_write.
      rewrite live_value_cache_write_other; [done|].
      apply compat_key_not_profile.
    + intros x. rewrite !get_precomputed_matches_eq. simpl.
      unfold cached_matches. rewrite redis_up_cache_write.
      rewrite live_value_cache_write_other; [done|].
      apply compat_key_not_matches.
  - intros uid l. rewrite set_precomputed_matches_eq. simpl. repeat split.
    + intros x. rewrite !get_user_profile_eq. simpl.
      unfold cached_profile. rewrite redis_up_cache_write.
      rewrite live_value_cache_write_other; [done|].
      apply matches_key_not_profile.
    + intros a b. rewrite !get_compatibility_score_eq. simpl.
      unfold cached_score. rewrite redis_up_cache_write.
      rewrite live_value_cache_write_other; [done|].
      intros H. symmetry in H. by apply compat_key_not_matches in H.
    + intros x Hx. rewrite !get_precomputed_matches_eq. simpl.
      unfold cached_matches. rewrite redis_up_cache_write.
      rewrite live_value_cache_write_other; [done|].
      intros H. by apply matches_key_inj in H.
Qed.

Lemma cache_writes_isolated_witness :
  fst (CacheManager.get_user_profile "B"
         (snd (CacheManager.set_user_profile Examples.default_config "A"
                 (mkUserProfile "A" ∅) Examples.world_AB)))
  = fst (CacheManager.get_user_profile "B" Examples.world_AB).
Proof.
  apply (proj1 (cache_writes_leave_other_families_alone
                  Examples.default_config Examples.world_AB)
           "A" (mkUserProfile "A" ∅)).
  done.
Defined.

(** ** The DatabaseManager *)

(** X7. [get_active_users(limit)] never raises and changes nothing in
    Redis; it returns a prefix of the roster, of at most [limit] ids
    when [limit] is not negative, and the empty list when the database
    is unavailable or the limit is negative. *)
Theorem get_active_users_returns_bounded_prefix limit w :
  ∃ l w',
    DatabaseManager.get_active_users limit w = (Ok l, w')
    ∧ redis_data w' = redis_data w
    ∧ l `prefix_of` active_users w
    ∧ (0 <= limit → Z.of_nat (length l) <= limit)
    ∧ (0 <= limit → db_up w = true →
       Z.of_nat (length l) = Z.min limit (Z.of_nat (length (active_users w))))
    ∧ (db_up w = false ∨ limit < 0 → l = []).
Proof.
  eexists _, _. split; [apply db_get_active_users_eq|].
  split; [done|].
  unfold DatabaseManager.select_active_users.
  destruct (db_up w); simpl.
  - case_bool_decide as Hl.
    + split; [apply prefix_take|].
      split; [intros _; rewrite length_take; lia|].
      split; [intros _ _; rewrite length_take; lia|].
      intros [[=]|?]. lia.
    + split; [apply prefix_nil|]. split; [lia|]. split; [lia|done].
  - split; [apply prefix_nil|]. split; [simpl; lia|]. by split.
Qed.

Lemma get_active_users_witness :
  ∃ l w',
    DatabaseManager.get_active_users 1 Examples.world_AB = (Ok l, w')
    ∧ Z.of_nat (length l) <= 1.
Proof.
  destruct (get_active_users_returns_bounded_prefix 1 Examples.world_AB)
    as (l & w' & Hrun & _ & _ & Hlen & _).
  exists l, w'. split; [done|]. apply Hlen. lia.
Defined.

(** ** The Profile Resolver *)

(** X8. A live cached profile is returned as it is, without a store
    read and without a cache write, whatever the store holds for the
    user by now; only the hit counter moves. *)
Theorem resolver_hit_serves_cached_profile_without_store_read config uid w p :
  fst (CacheManager.get_user_profile uid w) = Ok (Some p) →
  ModelInferenceEngine.get_user_profile config uid w
  = (Ok (Some p), incr_cache_hits w).
Proof.
  rewrite get_user_profile_eq. simpl. intros [= Hhit].
  rewrite engine_get_user_profile_eq. unfold resolve, after_resolve.
  by rewrite Hhit.
Qed.

(** A world whose cached profile of A differs from the stored one. *)
Definition world_stale_profile : World :=
  mkWorld
    (<[user_profile_key "A" :=
         mkEntry (RProfile (mkUserProfile "A" ∅)) 5000]> ∅)
    true true
    (<["A" := Examples.uniform_attributes (Q2Qc (1 # 5))]> ∅)
    ["A"] 1000 0 0 [].

Lemma resolver_hit_witness :
  ModelInferenceEngine.get_user_profile Examples.default_config "A"
    world_stale_profile
  = (Ok (Some (mkUserProfile "A" ∅)), incr_cache_hits world_stale_profile).
Proof.
  apply resolver_hit_serves_cached_profile_without_store_read. reflexivity.
Defined.

(** X9. With Redis unreachable the resolver fails open to the store:
    every call issues one store read, returns the store's answer (the
    row of the requested id, or [None] when there is none or the
    database is down too), and changes nothing but the trace. *)
Theorem resolver_fails_open_to_the_store config uid w :
  redis_up w = false →
  ModelInferenceEngine.get_user_profile config uid w
  = (Ok (if db_up w then mkUserProfile uid <$> user_profiles w !! uid
         else None),
     emit (DbGetUserProfile uid) w).
Proof.
  intros Hdown. rewrite engine_get_user_profile_eq.
  unfold resolve, after_resolve, cached_profile. rewrite Hdown.
  fold (DatabaseManager.select_user_profile w uid).
  destruct (DatabaseManager.select_user_profile w uid); [|done].
  unfold cache_write. simpl. by rewrite Hdown.
Qed.

Lemma resolver_fails_open_witness :
  ModelInferenceEngine.get_user_profile Examples.default_config "A"
    (mkWorld ∅ false false ∅ [] 0 0 0 [])
  = (Ok None, emit (DbGetUserProfile "A") (mkWorld ∅ false false ∅ [] 0 0 0 [])).
Proof.
  apply (resolver_fails_open_to_the_store Examples.default_config "A"
           (mkWorld ∅ false false ∅ [] 0 0 0 []) eq_refl).
Defined.

(** X10. Resolving one user never changes what any user resolves to:
    after [get_user_profile x], [get_user_profile y] returns what it
    would have returned before, for all x and y (equal or not). *)
Theorem resolving_does_not_change_any_resolution config x y w :
  fst (ModelInferenceEngine.get_user_profile config y
         (snd (ModelInferenceEngine.get_user_profile config x w)))
  = fst (ModelInferenceEngine.get_user_profile config y w).
Proof.
  rewrite !engine_get_user_profile_eq. simpl.
  by rewrite resolve_after_resolve.
Qed.

(** ** The Pairwise Scorer: failures and cost *)

Lemma store_reads_app t1 t2 :
  store_reads (t1 ++ t2) = (store_reads t1 + store_reads t2)%nat.
Proof. unfold store_reads. by rewrite list.filter_app, length_app. Qed.

Lemma model_calls_app t1 t2 :
  model_calls (t1 ++ t2) = (model_calls t1 + model_calls t2)%nat.
Proof. unfold model_calls. by rewrite list.filter_app, length_app. Qed.

Section ScorerCost.
Variable config : InferenceConfig.
Variable model : HybridRecommender.t.

(** The events of one scoring call, counted. *)
Lemma trace_after_predict_counts a b w :
  ∃ new,
    trace (after_predict config model a b w) = new ++ trace w
    ∧ (store_reads new <= 2)%nat
    ∧ (model_calls new <= 1)%nat
    ∧ (is_Some (cached_score w a b) → new = [])
    ∧ forallb (λ e, negb (matches_write e)) new = true.
Proof.
  unfold after_predict.
  destruct (cached_score w a b) as [q|] eqn:Hc.
  { exists []. repeat split; try done;
      unfold store_reads, model_calls; simpl; lia. }
  destruct (trace_after_resolve config a w) as (n1 & Ht1 & Hp1 & Hr1).
  destruct (trace_after_resolve config b (after_resolve config a w))
    as (n2 & Ht2 & Hp2 & Hr2).
  assert (trace (after_resolve config b (after_resolve config a w))
          = (n2 ++ n1) ++ trace w) as Ht
    by (by rewrite Ht2, Ht1, app_assoc).
  assert (store_reads (n2 ++ n1) <= 2)%nat as Hreads.
  { rewrite store_reads_app, Hr1, Hr2.
    destruct (cached_profile _ b), (cached_profile w a); lia. }
  assert (model_calls (n2 ++ n1) = 0)%nat as Hcalls.
  { apply no_profile_event_is_model_call. by rewrite forallb_app, Hp1, Hp2. }
  assert (forallb (λ e, negb (matches_write e)) (n2 ++ n1) = true) as Hnm.
  { apply profile_event_no_matches_write. by rewrite forallb_app, Hp1, Hp2. }
  assert (∀ pre : list event,
            forallb (λ e, negb (matches_write e)) pre = true →
            store_reads pre = 0%nat → (model_calls pre <= 1)%nat →
            (store_reads (pre ++ n2 ++ n1) <= 2)%nat
            ∧ (model_calls (pre ++ n2 ++ n1) <= 1)%nat
            ∧ (is_Some (@None Qc) → pre ++ n2 ++ n1 = [])
            ∧ forallb (λ e, negb (matches_write e)) (pre ++ n2 ++ n1) = true)
    as Hfinish.
  { intros pre Hpre Hr Hm.
    rewrite store_reads_app, model_calls_app, forallb_app, Hr, Hcalls, Hpre, Hnm.
    repeat split; try lia. intros [? [=]]. }
  destruct (resolve w a) as [p1|];
    [|exists ([] ++ n2 ++ n1); split;
       [exact Ht|apply (Hfinish []); [done|done|unfold model_calls; simpl; lia]]].
  destruct (resolve w b) as [p2|];
    [|exists ([] ++ n2 ++ n1); split;
       [exact Ht|apply (Hfinish []); [done|done|unfold model_calls; simpl; lia]]].
  destruct (scored model p1 p2) as [s|e].
  - rewrite trace_cache_write. simpl. rewrite Ht.
    destruct (redis_up _ && _); simpl.
    + eexists ([_; _] ++ n2 ++ n1). split; [reflexivity|].
      apply (Hfinish [_; _]); [done|done|]. unfold model_calls. simpl. lia.
    + eexists ([_] ++ n2 ++ n1). split; [reflexivity|].
      apply (Hfinish [_]); [done|done|]. unfold model_calls. simpl. lia.
  - simpl. rewrite Ht.
    eexists ([_] ++ n2 ++ n1). split; [reflexivity|].
    apply (Hfinish [_]); [done|done|]. unfold model_calls. simpl. lia.
Qed.

Lemma after_predict_raise_keeps_scores a b w p1 p2 e k :
  cached_score w a b = None →
  resolve w a = Some p1 → resolve w b = Some p2 →
  scored model p1 p2 = Raise e →
  (∀ c, k ≠ user_profile_key c) →
  redis_data (after_predict config model a b w) !! k = redis_data w !! k.
Proof.
  intros Hc Ha Hb He Hk. unfold after_predict. rewrite Hc, Ha, Hb, He.
  simpl. by rewrite !redis_data_after_resolve.
Qed.
End ScorerCost.

(** X11. When the model raises on a pair that missed the cache and
    whose profiles both resolve, the scorer returns 0.5 after that one
    model call and caches nothing, so the next call for the pair calls
    the model again. *)
Theorem model_failure_gives_neutral_score_and_is_not_cached
    config model a b w pa pb e :
  fst (CacheManager.get_compatibility_score a b w) = Ok None →
  fst (ModelInferenceEngine.get_user_profile config a w) = Ok (Some pa) →
  fst (ModelInferenceEngine.get_user_profile config b w) = Ok (Some pb) →
  HybridRecommender.predict_compatibility model (attributes pa) (attributes pb)
  = Raise e →
  ∃ w1 new1 w2 new2,
    ModelInferenceEngine.predict_compatibility config model a b w
    = (Ok neutral_score, w1)
    ∧ trace w1 = new1 ++ trace w ∧ model_calls new1 = 1%nat
    ∧ (∀ x y, redis_data w1 !! compat_key x y = redis_data w !! compat_key x y)
    ∧ ModelInferenceEngine.predict_compatibility config model a b w1
      = (Ok neutral_score, w2)
    ∧ trace w2 = new2 ++ trace w1 ∧ model_calls new2 = 1%nat.
Proof.
  rewrite get_compatibility_score_eq, !engine_get_user_profile_eq. simpl.
  intros [= Hmiss] [= Ha] [= Hb] He.
  assert (∀ x y c, compat_key x y ≠ user_profile_key c) as Hkeys
    by (intros; apply compat_key_not_profile).
  set (w1 := after_predict config model a b w).
  assert (∀ x y, redis_data w1 !! compat_key x y = redis_data w !! compat_key x y)
    as Hdata.
  { intros x y. by eapply after_predict_raise_keeps_scores. }
  assert (cached_score w1 a b = None) as Hmiss1.
  { rewrite (cached_score_same w); [done|apply same_env_after_predict|].
    apply Hdata. }
  assert (∀ w0, cached_score w0 a b = None →
                resolve w0 a = Some pa → resolve w0 b = Some pb →
            predict_value model a b w0 = neutral_score
            ∧ ∃ new, trace (after_predict config model a b w0) = new ++ trace w0
                     ∧ model_calls new = 1%nat) as Hstep.
  { intros w0 Hc0 Ha0 Hb0. split.
    - unfold predict_value, scored. by rewrite Hc0, Ha0, Hb0, He.
    - destruct (trace_after_predict config model a b w0) as (news & Hp & Ht).
      eexists. split; [exact Ht|].
      unfold predict_events, scored. rewrite Hc0, Ha0, Hb0, He.
      unfold model_calls. simpl.
      fold (model_calls news). by rewrite no_profile_event_is_model_call. }
  destruct (Hstep w Hmiss Ha Hb) as (Hv & new1 & Ht1 & Hc1).
  destruct (Hstep w1 Hmiss1) as (Hv2 & new2 & Ht2 & Hc2).
  { subst w1. by rewrite resolve_after_predict. }
  { subst w1. by rewrite resolve_after_predict. }
  exists w1, new1, (after_predict config model a b w1), new2.
  rewrite !predict_compatibility_eq, Hv, Hv2. done.
Qed.

(** A model whose regressor has not been trained: [predict] raises. *)
Definition untrained_model : HybridRecommender.t :=
  HybridRecommender.mk (λ _, None) None
    (Q2Qc (2 # 5)) (Q2Qc (2 # 5)) (Q2Qc (1 # 5)) (λ _ _, Q2Qc 1).

Lemma model_failure_witness :
  ∃ w1 new1,
    ModelInferenceEngine.predict_compatibility Examples.default_config
      untrained_model "A" "B" Examples.world_AB = (Ok neutral_score, w1)
    ∧ trace w1 = new1 ++ trace Examples.world_AB
    ∧ model_calls new1 = 1%nat.
Proof.
  destruct (model_failure_gives_neutral_score_and_is_not_cached
              Examples.default_config untrained_model "A" "B"
              Examples.world_AB
              (mkUserProfile "A" (Examples.uniform_attributes (Q2Qc (1 # 5))))
              (mkUserProfile "B" (Examples.uniform_attributes (Q2Qc (4 # 5))))
              ValueError eq_refl eq_refl eq_refl eq_refl)
    as (w1 & new1 & _ & _ & Hrun & Htr & Hcalls & _).
  by exists w1, new1.
Defined.

(** X12. One scoring call issues at most two store reads and at most
    one model call, and writes no ranked list; when the pair's score is
    cached it issues nothing at all. *)
Theorem scoring_call_cost_is_bounded config model a b w :
  ∃ q w' new,
    ModelInferenceEngine.predict_compatibility config model a b w = (Ok q, w')
    ∧ trace w' = new ++ trace w
    ∧ (store_reads new <= 2)%nat
    ∧ (model_calls new <= 1)%nat
    ∧ (∀ k ttl l, ¬ In (RedisSetex k ttl (RMatches l)) new)
    ∧ (∀ c, fst (CacheManager.get_compatibility_score a b w) = Ok (Some c) →
            q = c ∧ new = []).
Proof.
  destruct (trace_after_predict_counts config model a b w)
    as (new & Ht & Hr & Hm & Hhit & Hnm).
  eexists _, _, new. split; [apply predict_compatibility_eq|].
  split; [done|]. split; [done|]. split; [done|]. split.
  - intros k ttl l. by apply no_matches_write_not_in.
  - intros c. rewrite get_compatibility_score_eq. simpl. intros [= Hc].
    split; [|apply Hhit; by rewrite Hc].
    unfold predict_value. by rewrite Hc.
Qed.

Lemma scoring_call_cost_witness :
  ∃ q w',
    ModelInferenceEngine.predict_compatibility Examples.default_config
      Examples.first_feature_model "u" "a" Examples.world_tie = (Ok q, w')
    ∧ q = Q2Qc (9 # 10) ∧ trace w' = trace Examples.world_tie.
Proof.
  destruct (scoring_call_cost_is_bounded Examples.default_config
              Examples.first_feature_model "u" "a" Examples.world_tie)
    as (q & w' & new & Hrun & Htr & _ & _ & _ & Hhit).
  destruct (Hhit (Q2Qc (9 # 10)) eq_refl) as [-> ->].
  by exists (Q2Qc (9 # 10)), w'.
Defined.
